(** * Threat Telemetry Hub: the event pipeline and the correlation engine

    A shallow embedding of
    - [internal/correlation/correlator.go] (the correlation table),
    - [internal/normalization] (schema dispatch of [Normalize]),
    - [internal/ai/provider.go] ([AnalyzeRawEvent] and its fallback),
    - [cmd/hub/main.go] ([processEvent] and [calculateRisk]),
    together with the library pieces the correlator computes with
    (SHA-256, hexadecimal encoding, saturating [time.Time.Sub]). *)

From Stdlib Require Import ZArith String Ascii List Floats.
From stdpp Require Import gmap strings list fin_maps.
Import ListNotations.

Local Open Scope string_scope.
Local Open Scope Z_scope.
Local Open Scope list_scope.

(** ** crypto/sha256 and encoding/hex

    Go strings are byte sequences, and so are Rocq's; words are 32-bit
    integers carried in [Z] with the wrap-around written out. *)
Module sha256.

Definition wrap (x : Z) : Z := x mod 2 ^ 32.
Definition add (x y : Z) : Z := wrap (x + y).
Definition rotr (n x : Z) : Z :=
  Z.lor (Z.shiftr x n) (wrap (Z.shiftl x (32 - n))).
Definition inv (x : Z) : Z := Z.lxor x (2 ^ 32 - 1).

Definition Ch (x y z : Z) : Z := Z.lxor (Z.land x y) (Z.land (inv x) z).
Definition Maj (x y z : Z) : Z :=
  Z.lxor (Z.lxor (Z.land x y) (Z.land x z)) (Z.land y z).
Definition bsig0 (x : Z) : Z := Z.lxor (Z.lxor (rotr 2 x) (rotr 13 x)) (rotr 22 x).
Definition bsig1 (x : Z) : Z := Z.lxor (Z.lxor (rotr 6 x) (rotr 11 x)) (rotr 25 x).
Definition ssig0 (x : Z) : Z := Z.lxor (Z.lxor (rotr 7 x) (rotr 18 x)) (Z.shiftr x 3).
Definition ssig1 (x : Z) : Z := Z.lxor (Z.lxor (rotr 17 x) (rotr 19 x)) (Z.shiftr x 10).

(** The round constants are the first 32 fractional bits of the cube
    roots of the first 64 primes, the initial state those of the square
    roots of the first 8; both tables are computed from that definition. *)
Definition is_prime (n : nat) : bool :=
  forallb (fun d => negb (Nat.eqb (Nat.modulo n d) 0)) (seq 2 (n - 2)).

Definition primes : list Z :=
  Eval vm_compute in map Z.of_nat (filter is_prime (seq 2 310)).

Fixpoint cbrt_bits (bits : nat) (n acc : Z) : Z :=
  match bits with
  | O => acc
  | S b =>
      let cand := acc + 2 ^ Z.of_nat b in
      cbrt_bits b n (if cand * cand * cand <=? n then cand else acc)
  end.

Definition _K : list Z :=
  Eval vm_compute in map (fun p => wrap (cbrt_bits 40 (p * 2 ^ 96) 0)) primes.

Definition init : list Z :=
  Eval vm_compute in map (fun p => wrap (Z.sqrt (p * 2 ^ 64))) (firstn 8 primes).

(** Padding: a one bit, zeros up to 56 mod 64, the bit length on 8 bytes. *)
Fixpoint be_bytes (n : nat) (x : Z) : list Z :=
  match n with
  | O => []
  | S m => (Z.shiftr x (8 * Z.of_nat m)) mod 256 :: be_bytes m x
  end.

Definition pad (msg : list Z) : list Z :=
  let len := Z.of_nat (length msg) in
  let zeros := Z.to_nat ((55 - len) mod 64) in
  msg ++ [128] ++ repeat 0 zeros ++ be_bytes 8 (8 * len).

Fixpoint be_word (bs : list Z) (acc : Z) : Z :=
  match bs with
  | [] => acc
  | b :: r => be_word r (acc * 256 + b)
  end.

Fixpoint words (n : nat) (bs : list Z) : list Z :=
  match n with
  | O => []
  | S m => be_word (firstn 4 bs) 0 :: words m (skipn 4 bs)
  end.

(** The message schedule, the newest word first in [rev_w]. *)
Fixpoint schedule (n : nat) (rev_w : list Z) : list Z :=
  match n with
  | O => rev rev_w
  | S m =>
      let w i := nth i rev_w 0 in
      schedule m (add (add (ssig1 (w 1%nat)) (w 6%nat))
                      (add (ssig0 (w 14%nat)) (w 15%nat)) :: rev_w)
  end.

Definition state : Type := Z * Z * Z * Z * Z * Z * Z * Z.

Definition round (s : state) (kw : Z * Z) : state :=
  let '(a, b, c, d, e, f, g, h) := s in
  let t1 := add (add (add (add h (bsig1 e)) (Ch e f g)) (fst kw)) (snd kw) in
  let t2 := add (bsig0 a) (Maj a b c) in
  (add t1 t2, a, b, c, add d t1, e, f, g).

Definition block (s : state) (bs : list Z) : state :=
  let w := schedule 48 (rev (words 16 bs)) in
  let '(a, b, c, d, e, f, g, h) := fold_left round (combine _K w) s in
  let '(a0, b0, c0, d0, e0, f0, g0, h0) := s in
  (add a0 a, add b0 b, add c0 c, add d0 d, add e0 e, add f0 f, add g0 g, add h0 h).

Fixpoint blocks (n : nat) (s : state) (bs : list Z) : state :=
  match n with
  | O => s
  | S m => blocks m (block s (firstn 64 bs)) (skipn 64 bs)
  end.

Definition init_state : state :=
  match init with
  | [a; b; c; d; e; f; g; h] => (a, b, c, d, e, f, g, h)
  | _ => (0, 0, 0, 0, 0, 0, 0, 0)
  end.

Definition bytes_of (s : string) : list Z :=
  map (fun c => Z.of_N (N_of_ascii c)) (list_ascii_of_string s).

(** [h.Sum(nil)] after the bytes of [s] were written. *)
Definition Sum (s : string) : list Z :=
  let p := pad (bytes_of s) in
  let '(a, b, c, d, e, f, g, h) := blocks (length p / 64) init_state p in
  flat_map (be_bytes 4) [a; b; c; d; e; f; g; h].

End sha256.

Module hex.

Definition digit (n : Z) : ascii :=
  ascii_of_N (Z.to_N (if n <? 10 then 48 + n else 87 + n)).

Fixpoint EncodeToString (bs : list Z) : string :=
  match bs with
  | [] => EmptyString
  | b :: r => String (digit (b / 16)) (String (digit (b mod 16)) (EncodeToString r))
  end.

End hex.

(** [s[:n]] on a string of at least [n] bytes. *)
Fixpoint prefix (n : nat) (s : string) : string :=
  match n, s with
  | S m, String c r => String c (prefix m r)
  | _, _ => EmptyString
  end.

(** ** time: instants, durations and the saturating difference *)
Module time.

Definition Duration : Type := Z.
Definition Nanosecond : Duration := 1.
Definition Second : Duration := 1000000000 * Nanosecond.
Definition Minute : Duration := 60 * Second.
Definition Hour : Duration := 60 * Minute.
Definition minDuration : Duration := - 2 ^ 63.
Definition maxDuration : Duration := 2 ^ 63 - 1.

(** A reading of [time.Now()]: the instant on the process clock, in
    nanoseconds, and the text [String()] renders for it. *)
Record Time : Type := { nanos : Z; text : string }.

(** [t.Sub(u)]: the difference, held at the largest (smallest) duration
    when it does not fit. *)
Definition Sub (t u : Time) : Duration :=
  let d := nanos t - nanos u in
  if d >? maxDuration then maxDuration
  else if d <? minDuration then minDuration
  else d.

End time.

(** ** Dynamic values: what a [map[string]interface{}] holds *)
#[warnings="-register-all"]
Inductive any : Type :=
| Nil
| Bool (b : bool)
| Int (n : Z)
| Float64 (f : float)
| Str (s : string)
| Strs (l : list string)
| Anys (l : list any)
| Obj (fields : list (string * any)).

(** The type assertion [v.(string)] on the result of a map read: it fails
    on a missing key (the nil interface) and on any value but a string. *)
Definition assert_string (v : option any) : option string :=
  match v with
  | Some (Str s) => Some s
  | _ => None
  end.

(** Log records at the levels the production logger keeps; [Debug] calls
    write nothing there and are left out. *)
Inductive level : Type := Info | Warn | Error.
Definition entry : Type := (level * string)%type.

Module ingestion.

Record RawEvent : Type := {
  ID : string;
  Timestamp : time.Time;
  Source : string;
  SourceType : string;
  Data : gmap string any
}.

End ingestion.

Module normalization.

Record SourceInfo : Type := {
  Name : string;
  Type_ : string;
  Vendor : string;
  Product : string;
  Version : string
}.

Record NormalizedEvent : Type := {
  ID : string;
  Timestamp : time.Time;
  Schema : string;
  SchemaVersion : string;
  Category : string;
  EventType : string;
  Severity : Z;
  Source : SourceInfo;
  Data : gmap string any;
  Raw : gmap string any
}.

(** A [*NormalizedEvent]: the address of the allocation and the event
    stored there, which nothing writes after [Normalize] returns it. *)
Record EventPtr : Type := { addr : nat; deref : NormalizedEvent }.

Definition vendorMap : list (string * string) :=
  [ ("crowdstrike", "CrowdStrike"); ("sentinelone", "SentinelOne");
    ("defender", "Microsoft"); ("splunk", "Splunk");
    ("elasticsearch", "Elastic"); ("aws-cloudtrail", "Amazon Web Services");
    ("azure-activity", "Microsoft"); ("gcp-audit", "Google Cloud");
    ("digital-guardian", "Fortra"); ("proofpoint", "Proofpoint");
    ("purview", "Microsoft"); ("netskope", "Netskope") ].

Definition productMap : list (string * string) :=
  [ ("crowdstrike", "Falcon"); ("sentinelone", "Singularity");
    ("defender", "Defender for Endpoint"); ("splunk", "Splunk Enterprise");
    ("elasticsearch", "Elasticsearch Security"); ("aws-cloudtrail", "CloudTrail");
    ("azure-activity", "Activity Log"); ("gcp-audit", "Audit Logs");
    ("digital-guardian", "Digital Guardian"); ("proofpoint", "Email Protection");
    ("purview", "Purview DLP"); ("netskope", "Cloud Security") ].

(** A read of a string-valued map: the empty string on a missing key. *)
Fixpoint index (m : list (string * string)) (k : string) : string :=
  match m with
  | [] => ""
  | (k', v) :: r => if String.eqb k k' then v else index r k
  end.

Definition getSourceInfo (raw : ingestion.RawEvent) : SourceInfo :=
  {| Name := ingestion.Source raw;
     Type_ := ingestion.SourceType raw;
     Vendor := index vendorMap (ingestion.Source raw);
     Product := index productMap (ingestion.Source raw);
     Version := "" |}.

Definition matches (s : string) (cases : list string) : bool :=
  existsb (String.eqb s) cases.

(** The per-source mappers are stubs that set the severity only; the
    canonical attribute mapping stays the empty map it was made as. *)
Definition normalizeToOCSF (raw : ingestion.RawEvent) : NormalizedEvent :=
  let st := ingestion.SourceType raw in
  let '(category, type, severity) :=
    if String.eqb st "edr" then ("security_finding", "detection", 70)
    else if String.eqb st "siem" then ("security_finding", "alert", 50)
    else if String.eqb st "cloud" then ("api_activity", "audit", 30)
    else if String.eqb st "dlp" then ("data_security", "policy_violation", 60)
    else ("unknown", "unknown", 0) in
  {| ID := ingestion.ID raw;
     Timestamp := ingestion.Timestamp raw;
     Schema := "ocsf";
     SchemaVersion := "1.1.0";
     Category := category;
     EventType := type;
     Severity := severity;
     Source := getSourceInfo raw;
     Data := ∅;
     Raw := ingestion.Data raw |}.

Definition normalizeToECS (raw : ingestion.RawEvent) : NormalizedEvent :=
  let st := ingestion.SourceType raw in
  let '(category, type, severity) :=
    if String.eqb st "edr" then ("malware", "detection", 70)
    else if String.eqb st "siem" then ("threat", "indicator", 50)
    else if String.eqb st "cloud" then ("configuration", "change", 30)
    else if String.eqb st "dlp" then ("file", "access", 60)
    else ("unknown", "unknown", 0) in
  {| ID := ingestion.ID raw;
     Timestamp := ingestion.Timestamp raw;
     Schema := "ecs";
     SchemaVersion := "8.11.0";
     Category := category;
     EventType := type;
     Severity := severity;
     Source := getSourceInfo raw;
     Data := ∅;
     Raw := ingestion.Data raw |}.

(** [Normalize]: the event, or the error text. [DefaultSchema] is the
    one field of the normalizer's configuration that is read. *)
Definition Normalize (DefaultSchema : string) (raw : ingestion.RawEvent)
  : NormalizedEvent + string :=
  if String.eqb DefaultSchema "ocsf" then inl (normalizeToOCSF raw)
  else if String.eqb DefaultSchema "ecs" then inl (normalizeToECS raw)
  else inr ("unsupported schema: " +:+ DefaultSchema).

End normalization.

(** ** internal/correlation *)
Module correlation.
Import normalization.

Record CorrelationGroup : Type := {
  ID : string;
  Events : list EventPtr;
  CreatedAt : time.Time;
  UpdatedAt : time.Time;
  Keys : list string
}.

Record Correlator : Type := {
  correlations : gmap string CorrelationGroup;
  ttl : time.Duration
}.

Definition NewCorrelator : Correlator :=
  {| correlations := ∅; ttl := 1 * time.Hour |}.

Definition extractCorrelationKeys (event : NormalizedEvent) : list string :=
  let keys := [] in
  let keys :=
    match assert_string (Data event !! "source_ip") with
    | Some ip => if negb (String.eqb ip "") then keys ++ ["ip:" +:+ ip] else keys
    | None => keys
    end in
  let keys :=
    match assert_string (Data event !! "user") with
    | Some user => if negb (String.eqb user "") then keys ++ ["user:" +:+ user] else keys
    | None => keys
    end in
  let keys :=
    match assert_string (Data event !! "hostname") with
    | Some host => if negb (String.eqb host "") then keys ++ ["host:" +:+ host] else keys
    | None => keys
    end in
  let keys :=
    match assert_string (Data event !! "file_hash") with
    | Some hash => if negb (String.eqb hash "") then keys ++ ["hash:" +:+ hash] else keys
    | None => keys
    end in
  let keys :=
    match assert_string (Data event !! "domain") with
    | Some domain => if negb (String.eqb domain "") then keys ++ ["domain:" +:+ domain] else keys
    | None => keys
    end in
  keys.

Definition matchesGroup (keys : list string) (group : CorrelationGroup) : bool :=
  existsb (fun key => existsb (fun groupKey => String.eqb key groupKey) (Keys group)) keys.

(** The hash is fed every key in turn and then the text of the clock
    reading; the identifier is the first 16 hexadecimal digits. *)
Definition generateCorrelationID (keys : list string) (now : time.Time) : string :=
  let h := fold_left String.append keys "" in
  let h := h +:+ time.text now in
  prefix 16 (hex.EncodeToString (sha256.Sum h)).

(** The readings [time.Now()] gives during one call of [Correlate], in
    the order they are taken. *)
Record Clock : Type := { now0 : time.Time; now1 : time.Time; now2 : time.Time }.

(** The [range] over the table visits the entries in an order the
    runtime picks; [order] is that order, and the scan stops at the first
    entry that matches. *)
Fixpoint first_match (order : list string) (table : gmap string CorrelationGroup)
         (keys : list string) : option (string * CorrelationGroup) :=
  match order with
  | [] => None
  | id :: rest =>
      match table !! id with
      | Some group =>
          if matchesGroup keys group then Some (id, group)
          else first_match rest table keys
      | None => first_match rest table keys
      end
  end.

Definition Correlate (order : list string) (clk : Clock) (c : Correlator)
           (event : EventPtr) : string * Correlator :=
  let keys := extractCorrelationKeys (deref event) in
  match first_match order (correlations c) keys with
  | Some (id, group) =>
      let group' :=
        {| ID := ID group;
           Events := Events group ++ [event];
           CreatedAt := CreatedAt group;
           UpdatedAt := now0 clk;
           Keys := Keys group |} in
      (ID group, {| correlations := <[id := group']> (correlations c); ttl := ttl c |})
  | None =>
      let groupID := generateCorrelationID keys (now0 clk) in
      let group :=
        {| ID := groupID;
           Events := [event];
           CreatedAt := now1 clk;
           UpdatedAt := now2 clk;
           Keys := keys |} in
      (groupID, {| correlations := <[groupID := group]> (correlations c); ttl := ttl c |})
  end.

(** One tick of [cleanup]: the sweep over the table at the reading [now]. *)
Definition expired (c : Correlator) (now : time.Time) (group : CorrelationGroup) : bool :=
  time.Sub now (UpdatedAt group) >? ttl c.

Definition sweep (order : list string) (now : time.Time) (c : Correlator) : Correlator :=
  {| correlations :=
       fold_left
         (fun table id =>
            match correlations c !! id with
            | Some group => if expired c now group then delete id table else table
            | None => table
            end)
         order (correlations c);
     ttl := ttl c |}.

Definition GetGroup (c : Correlator) (id : string) : option CorrelationGroup :=
  correlations c !! id.

Definition GetActiveGroups (order : list string) (c : Correlator) : list CorrelationGroup :=
  omap (fun id => correlations c !! id) order.

(** An order the runtime can pick for a [range] over [table]: every key
    once. *)
Definition iteration (table : gmap string CorrelationGroup) (order : list string) : Prop :=
  order ≡ₚ (map_to_list table).*1.

(** The calls that reach the table: [Correlate] from the event tasks and
    the sweeps of the cleanup task, serialised by the lock. *)
Inductive call : Type :=
| CallCorrelate (order : list string) (clk : Clock) (event : EventPtr)
| CallSweep (order : list string) (now : time.Time).

Definition exec (c : Correlator) (k : call) : Correlator :=
  match k with
  | CallCorrelate order clk event => snd (Correlate order clk c event)
  | CallSweep order now => sweep order now c
  end.

Definition run (calls : list call) : Correlator := fold_left exec calls NewCorrelator.

Definition call_order (k : call) : list string :=
  match k with
  | CallCorrelate order _ _ => order
  | CallSweep order _ => order
  end.

(** Every call ranges over the table as it stands when the call runs. *)
Fixpoint feasible (c : Correlator) (calls : list call) : Prop :=
  match calls with
  | [] => True
  | k :: rest => iteration (correlations c) (call_order k) ∧ feasible (exec c k) rest
  end.

Definition submitted (calls : list call) : list EventPtr :=
  flat_map (fun k => match k with CallCorrelate _ _ e => [e] | CallSweep _ _ => [] end) calls.

End correlation.

(** ** internal/ai *)
Module ai.

Record Response : Type := {
  Content : string;
  Model : string;
  InputTokens : Z;
  OutputTokens : Z
}.

Record RiskAnalysis : Type := {
  RiskScore : float;
  RiskLevel : string;
  Summary : string;
  Indicators : list string;
  MITRETactics : list string;
  MITRETechniques : list string;
  Recommendations : list string;
  Confidence : float;
  RawContext : string
}.

(** The [Provider] interface: the answer to a prompt, or an error text. *)
Record Provider : Type := {
  Analyze : string -> Response + string;
  Name : string
}.

Record Analyzer : Type := { provider : Provider }.

Section Analysis.

(** [json.Unmarshal] into a [RiskAnalysis], and the text assembly of
    the prompt: library work whose result the analyzer only passes on. *)
Variable json_Unmarshal : string -> RiskAnalysis + string.
Variable buildRawEventPrompt : ingestion.RawEvent -> string.

Definition parseRiskAnalysis (content : string) : RiskAnalysis + string :=
  match json_Unmarshal content with
  | inl analysis => inl analysis
  | inr err => inr ("parsing AI response: " +:+ err)
  end.

Definition fallbackAnalysis (event : ingestion.RawEvent) : RiskAnalysis :=
  {| RiskScore := 0.5;
     RiskLevel := "medium";
     Summary := "Event from " +:+ ingestion.Source event +:+ " requires manual review";
     Indicators := [];
     MITRETactics := [];
     MITRETechniques := [];
     Recommendations := ["Review event manually"; "Check for related events"];
     Confidence := 0.0;
     RawContext := "AI analysis unavailable - fallback applied" |}.

(** The analysis or the error, and the records the call logs. *)
Definition AnalyzeRawEvent (a : Analyzer) (event : ingestion.RawEvent)
  : (RiskAnalysis + string) * list entry :=
  let prompt := buildRawEventPrompt event in
  match Analyze (provider a) prompt with
  | inr err => (inr ("AI analysis failed: " +:+ err), [])
  | inl response =>
      match parseRiskAnalysis (Content response) with
      | inr _ =>
          (inl (fallbackAnalysis event),
           [(Warn, "Failed to parse AI response, using fallback")])
      | inl analysis => (inl analysis, [])
      end
  end.

End Analysis.

End ai.

(** ** internal/enrichment *)
Module enrichment.
Import normalization.

(** The [EnrichmentSource] interface. *)
Record EnrichmentSource : Type := {
  source_Name : string;
  source_Enrich : NormalizedEvent -> list (string * any) + string;
  source_Enabled : bool
}.

Record Enricher : Type := { sources : list EnrichmentSource }.

Definition NewThreatForgeSource (enabled : bool) : EnrichmentSource :=
  {| source_Name := "threatforge";
     source_Enrich := fun _ => inl [("threat_score", Int 0); ("ioc_matches", Strs [])];
     source_Enabled := enabled |}.

Definition NewEntraIDSource (enabled : bool) : EnrichmentSource :=
  {| source_Name := "entra_id";
     source_Enrich := fun _ => inl [("user", Nil); ("risk_level", Str "unknown")];
     source_Enabled := enabled |}.

Definition NewOktaSource (enabled : bool) : EnrichmentSource :=
  {| source_Name := "okta";
     source_Enrich := fun _ => inl [("user", Nil); ("groups", Strs [])];
     source_Enabled := enabled |}.

Definition NewAssetSource (enabled : bool) : EnrichmentSource :=
  {| source_Name := "asset";
     source_Enrich := fun _ => inl [("asset", Nil); ("criticality", Str "unknown");
                             ("business_unit", Str "unknown")];
     source_Enabled := enabled |}.

(** The four switches of the enrichment configuration. *)
Record EnrichmentConfig : Type := {
  ThreatForge : bool;
  EntraID : bool;
  Okta : bool;
  Asset : bool
}.

Definition NewEnricher (cfg : EnrichmentConfig) : Enricher :=
  let sources := [] in
  let sources := if ThreatForge cfg then sources ++ [NewThreatForgeSource true] else sources in
  let sources := if EntraID cfg then sources ++ [NewEntraIDSource true] else sources in
  let sources := if Okta cfg then sources ++ [NewOktaSource true] else sources in
  let sources := if Asset cfg then sources ++ [NewAssetSource true] else sources in
  {| sources := sources |}.

(** [Enrich] never fails as a whole: a source that fails is logged and
    skipped. *)
Definition Enrich (e : Enricher) (event : NormalizedEvent)
  : gmap string any * list entry :=
  fold_left
    (fun '(enrichments, logs) source =>
       if source_Enabled source then
         match source_Enrich source event with
         | inr _ => (enrichments, logs ++ [(Warn, "Enrichment source failed")])
         | inl data => (<[source_Name source := Obj data]> enrichments, logs)
         end
       else (enrichments, logs))
    (sources e) (∅, []).

End enrichment.

(** ** cmd/hub *)
Module hub.
Import normalization.

Record ProcessedEvent : Type := {
  ID : string;
  Timestamp : time.Time;
  Source : string;
  SourceType : string;
  NormalizedData : gmap string any;
  RawData : gmap string any;
  AIAnalysis : option ai.RiskAnalysis;
  Enrichments : gmap string any;
  CorrelationID : string;
  RiskScore : float;
  RiskLevel : string;
  MITRETactics : list string;
  MITRETechniques : list string
}.

(** The pipeline: its components, the queue of processed events (of
    capacity 1000) and the records logged so far. *)
Record Pipeline : Type := {
  normalizer : string;
  aiAnalyzer : ai.Analyzer;
  enricher : enrichment.Enricher;
  correlator : correlation.Correlator;
  outputChan : list ProcessedEvent;
  logger : list entry
}.

Definition capacity : nat := 1000.

(** A decimal constant stands for the nearest binary64 value, in Go as
    here. *)
#[local] Set Warnings "-inexact-float".

Definition calculateRisk (aiAnalysis : option ai.RiskAnalysis) (_ : NormalizedEvent)
  : float * string :=
  match aiAnalysis with
  | None => (0.0%float, "unknown")
  | Some a =>
      let score := ai.RiskScore a in
      let level :=
        if (0.9 <=? score)%float then "critical"
        else if (0.7 <=? score)%float then "high"
        else if (0.4 <=? score)%float then "medium"
        else if (0.1 <=? score)%float then "low"
        else "info" in
      (score, level)
  end.

(** How the task of one event ends: it returned without a record, it
    delivered its record, or it waits to send on a full queue. *)
Inductive outcome : Type :=
| Dropped
| Delivered (processed : ProcessedEvent)
| Blocked (processed : ProcessedEvent).

(** What the runtime supplies to the task: the address of the event
    [Normalize] allocates, and the table order and clock readings of its
    [Correlate] call. *)
Record Runtime : Type := {
  fresh : nat;
  order : list string;
  clk : correlation.Clock
}.

(** The record the task built, when it got that far. *)
Definition record_of (o : outcome) : option ProcessedEvent :=
  match o with
  | Dropped => None
  | Delivered processed => Some processed
  | Blocked processed => Some processed
  end.

Section Process.

Variable json_Unmarshal : string -> ai.RiskAnalysis + string.
Variable buildRawEventPrompt : ingestion.RawEvent -> string.

Definition with_logs (p : Pipeline) (logs : list entry) : Pipeline :=
  {| normalizer := normalizer p; aiAnalyzer := aiAnalyzer p; enricher := enricher p;
     correlator := correlator p; outputChan := outputChan p;
     logger := logger p ++ logs |}.

Definition processEvent (rt : Runtime) (p : Pipeline) (raw : ingestion.RawEvent)
  : Pipeline * outcome :=
  (* Step 1: AI analysis on raw data *)
  let '(analysis, logs1) :=
    ai.AnalyzeRawEvent json_Unmarshal buildRawEventPrompt (aiAnalyzer p) raw in
  let '(aiAnalysis, logs1) :=
    match analysis with
    | inl a => (Some a, logs1)
    | inr _ => (None, logs1 ++ [(Warn, "AI analysis failed, continuing without")])
    end in
  (* Step 2: normalize *)
  match Normalize (normalizer p) raw with
  | inr _ => (with_logs p (logs1 ++ [(Error, "Normalization failed")]), Dropped)
  | inl event =>
      let normalized := {| addr := fresh rt; deref := event |} in
      (* Step 3: enrich *)
      let '(enrichments, logs3) := enrichment.Enrich (enricher p) event in
      (* Step 4: correlate *)
      let '(correlationID, correlator') :=
        correlation.Correlate (order rt) (clk rt) (correlator p) normalized in
      let '(score, level) := calculateRisk aiAnalysis event in
      let processed :=
        {| ID := ingestion.ID raw;
           Timestamp := ingestion.Timestamp raw;
           Source := ingestion.Source raw;
           SourceType := ingestion.SourceType raw;
           NormalizedData := Data event;
           RawData := ingestion.Data raw;
           AIAnalysis := aiAnalysis;
           Enrichments := enrichments;
           CorrelationID := correlationID;
           RiskScore := score;
           RiskLevel := level;
           MITRETactics := match aiAnalysis with Some a => ai.MITRETactics a | None => [] end;
           MITRETechniques := match aiAnalysis with Some a => ai.MITRETechniques a | None => [] end
        |} in
      let logs := logs1 ++ logs3 in
      if (length (outputChan p) <? capacity)%nat then
        ({| normalizer := normalizer p; aiAnalyzer := aiAnalyzer p; enricher := enricher p;
            correlator := correlator'; outputChan := outputChan p ++ [processed];
            logger := logger p ++ logs ++ [(Info, "Event processed")] |},
         Delivered processed)
      else
        ({| normalizer := normalizer p; aiAnalyzer := aiAnalyzer p; enricher := enricher p;
            correlator := correlator'; outputChan := outputChan p;
            logger := logger p ++ logs |},
         Blocked processed)
  end.

End Process.

End hub.

(** ** The key rule, in the words of the specification

    From the fixed, ordered attribute names, each attribute present with a
    non-empty value yields one key [kind:value]; the others yield none. *)
Module keyrule.
Import normalization.

Definition attributes : list (string * string) :=
  [ ("source_ip", "ip"); ("user", "user"); ("hostname", "host");
    ("file_hash", "hash"); ("domain", "domain") ].

Definition present (event : NormalizedEvent) (attr : string) : option string :=
  match Data event !! attr with
  | Some (Str v) => if String.eqb v "" then None else Some v
  | _ => None
  end.

Definition key_of (event : NormalizedEvent) (a : string * string) : list string :=
  match present event (fst a) with
  | Some v => [snd a +:+ ":" +:+ v]
  | None => []
  end.

Definition keys (event : NormalizedEvent) : list string :=
  flat_map (key_of event) attributes.

End keyrule.

(** ** Shared keys *)
Module shared.
Import normalization correlation.

Definition keys_of (e : EventPtr) : list string := extractCorrelationKeys (deref e).

(** Two events have at least one identical correlation key. *)
Definition share_key (a b : EventPtr) : Prop :=
  ∃ k, k ∈ keys_of a ∧ k ∈ keys_of b.

(** No group of the table holds a key of the event. *)
Definition unmatched (table : gmap string CorrelationGroup) (e : EventPtr) : Prop :=
  ∀ id g, table !! id = Some g -> matchesGroup (keys_of e) g = false.

(** The group a matching call leaves in place of [g]. *)
Definition joined (g : CorrelationGroup) (e : EventPtr) (now : time.Time) : CorrelationGroup :=
  {| ID := ID g; Events := Events g ++ [e]; CreatedAt := CreatedAt g;
     UpdatedAt := now; Keys := Keys g |}.

(** The group a call that matches nothing creates. *)
Definition created (e : EventPtr) (clk : Clock) : CorrelationGroup :=
  {| ID := generateCorrelationID (keys_of e) (now0 clk); Events := [e];
     CreatedAt := now1 clk; UpdatedAt := now2 clk; Keys := keys_of e |}.

End shared.

(** ** Sample events and clock readings
    The end-to-end scenario of the specification: three events carrying
    [source_ip=10.0.0.5], [user=alice] with the same address, and
    [user=alice] alone. *)
Module sample.
Import normalization correlation.

Definition at_ (n : Z) (s : string) : time.Time := {| time.nanos := n; time.text := s |}.

Definition t1 : time.Time := at_ 1000000001 "2026-01-05 10:00:00.000000001 +0000 UTC m=+1.000000001".
Definition t2 : time.Time := at_ 1000000002 "2026-01-05 10:00:00.000000002 +0000 UTC m=+1.000000002".
Definition t3 : time.Time := at_ 1000000003 "2026-01-05 10:00:00.000000003 +0000 UTC m=+1.000000003".

(** A call during which the clock does not advance. *)
Definition still (t : time.Time) : Clock := {| now0 := t; now1 := t; now2 := t |}.

Definition event (a : nat) (id : string) (data : list (string * any)) : EventPtr :=
  {| addr := a;
     deref :=
       {| normalization.ID := id; Timestamp := t1; Schema := "ocsf"; SchemaVersion := "1.1.0";
          Category := "security_finding"; EventType := "detection"; Severity := 70;
          Source := {| Name := "crowdstrike"; Type_ := "edr"; Vendor := "CrowdStrike";
                       Product := "Falcon"; Version := "" |};
          Data := list_to_map data; Raw := ∅ |} |}.

Definition e_ip : EventPtr := event 1 "evt-1" [("source_ip", Str "10.0.0.5")].
Definition e_both : EventPtr :=
  event 2 "evt-2" [("user", Str "alice"); ("source_ip", Str "10.0.0.5")].
Definition e_user : EventPtr := event 3 "evt-3" [("user", Str "alice")].

Definition e_host : EventPtr := event 4 "evt-4" [("hostname", Str "web-01")].
Definition e_host_user : EventPtr :=
  event 5 "evt-5" [("hostname", Str "web-01"); ("user", Str "bob")].
Definition e_bob : EventPtr := event 6 "evt-6" [("user", Str "bob")].

Definition raw (id : string) : ingestion.RawEvent :=
  {| ingestion.ID := id; ingestion.Timestamp := t1; ingestion.Source := "crowdstrike";
     ingestion.SourceType := "edr";
     ingestion.Data := list_to_map [("source_ip", Str "10.0.0.5")] |}.

End sample.

(** ** What holds of every group *)
Module groups.
Import normalization correlation shared.


(** The entry under [id], if any, is one the sweep at [now] deletes. *)
Definition doomed (c : Correlator) (now : time.Time) (id : string) : bool :=
  match correlations c !! id with
  | Some g => expired c now g
  | None => false
  end.

(** The group was last updated more than the TTL before [now]. *)
Definition older_than_ttl (c : Correlator) (now : time.Time) (g : CorrelationGroup) : Prop :=
  time.nanos now - time.nanos (UpdatedAt g) > ttl c.

End groups.

(** ** Membership *)
Module membership.
Import normalization correlation shared.

(** What the table keeps while every submitted event is a fresh
    allocation: each group is stored under its own identifier, holds
    only submitted events, holds none twice, and shares none with
    another group. *)
Record tidy (calls : list call) (table : gmap string CorrelationGroup) : Prop := {
  tidy_id : ∀ id g, table !! id = Some g -> ID g = id;
  tidy_known : ∀ id g e, table !! id = Some g -> e ∈ Events g ->
                         addr e ∈ addr <$> submitted calls;
  tidy_once : ∀ id g, table !! id = Some g -> NoDup (addr <$> Events g);
  tidy_apart : ∀ id1 g1 id2 g2 e1 e2,
      table !! id1 = Some g1 -> table !! id2 = Some g2 ->
      e1 ∈ Events g1 -> e2 ∈ Events g2 -> addr e1 = addr e2 -> id1 = id2
}.

(** The event is a member of a group of the table. *)
Definition held (table : gmap string CorrelationGroup) (e : EventPtr) : Prop :=
  ∃ id g, table !! id = Some g ∧ e ∈ Events g.

(** The members of all groups of the table, by address. *)
Definition members (table : gmap string CorrelationGroup) : list nat :=
  addr <$> flat_map Events (map_to_list table).*2.

(** The entry [id] is the first the range visits whose group shares a
    key with the event: the entries visited before it do not. *)
Definition first_in (order : list string) (table : gmap string CorrelationGroup)
           (keys : list string) (id : string) (g : CorrelationGroup) : Prop :=
  ∃ before after,
    order = before ++ id :: after
    ∧ table !! id = Some g
    ∧ matchesGroup keys g = true
    ∧ ∀ j gj, j ∈ before -> table !! j = Some gj -> matchesGroup keys gj = false.

(** No entry the range visits shares a key with the event. *)
Definition none_in (order : list string) (table : gmap string CorrelationGroup)
           (keys : list string) : Prop :=
  ∀ j gj, j ∈ order -> table !! j = Some gj -> matchesGroup keys gj = false.

(** The call matches nothing and the identifier it makes is that of a
    group of the table. *)
Definition collides (order : list string) (clk : Clock) (c : Correlator)
           (event : EventPtr) : Prop :=
  none_in order (correlations c) (keys_of event)
  ∧ is_Some (correlations c !! generateCorrelationID (keys_of event) (now0 clk)).

End membership.

(** ** Scenarios on the sample events *)
Module scenario.
Import normalization correlation sample.

(** [e_ip], [e_both], [e_user] in this order on the empty table. *)
Definition ip_1 : string * Correlator := Correlate [] (still t1) NewCorrelator e_ip.

(** [e_host], [e_host_user], [e_bob] in this order on the empty table. *)
Definition host_1 : string * Correlator := Correlate [] (still t1) NewCorrelator e_host.
Definition host_2 : string * Correlator :=
  Correlate [fst host_1] (still t2) (snd host_1) e_host_user.
Definition host_3 : string * Correlator :=
  Correlate [fst host_1] (still t3) (snd host_2) e_bob.


Definition three_calls : list call :=
  [ CallCorrelate [] (still t1) e_ip;
    CallCorrelate [fst ip_1] (still t2) e_both;
    CallCorrelate [fst ip_1] (still t3) e_user ].

(** Two events as the normalizer makes them, which carry no canonical
    attribute and so no key, correlated at one and the same reading of
    the clock. *)
Definition plain_1 : EventPtr := {| addr := 7; deref := normalizeToOCSF (raw "evt-7") |}.
Definition plain_2 : EventPtr := {| addr := 8; deref := normalizeToOCSF (raw "evt-8") |}.
Definition tick_1 : string * Correlator := Correlate [] (still t1) NewCorrelator plain_1.
Definition tick_2 : string * Correlator :=
  Correlate [fst tick_1] (still t1) (snd tick_1) plain_2.

(** [e_ip] submitted a second time, one second later. *)
Definition ip_again : string * Correlator :=
  Correlate [fst ip_1] (still t2) (snd ip_1) e_ip.

(** A group from the first second and one from fifty minutes later,
    swept seventy minutes after the start. *)
Definition late : time.Time :=
  at_ 3000000000000 "2026-01-05 10:49:59 +0000 UTC m=+3000.000000000".
Definition sweep_time : time.Time :=
  at_ 4200000000000 "2026-01-05 11:09:59 +0000 UTC m=+4200.000000000".
Definition old_and_new : list call :=
  [ CallCorrelate [] (still t1) e_ip;
    CallCorrelate [fst ip_1] (still late) e_bob ].
Definition sweep_order : list string :=
  Eval vm_compute in (map_to_list (correlations (run old_and_new))).*1.

(** Pipelines: a provider whose call fails, one whose answer is not
    JSON, and a decoder that rejects that answer as [json.Unmarshal]
    does. *)
Definition refusing : ai.Provider :=
  {| ai.Analyze := fun _ => inr "status 503"; ai.Name := "anthropic" |}.
Definition chatty : ai.Provider :=
  {| ai.Analyze := fun _ =>
       inl {| ai.Content := "I cannot assess this event."; ai.Model := "m";
              ai.InputTokens := 10; ai.OutputTokens := 6 |};
     ai.Name := "anthropic" |}.
Definition reject_text (content : string) : ai.RiskAnalysis + string :=
  inr "invalid character 'I' looking for beginning of value".
Definition no_prompt (event : ingestion.RawEvent) : string := "".

Definition pipeline (schema : string) (provider : ai.Provider) : hub.Pipeline :=
  {| hub.normalizer := schema;
     hub.aiAnalyzer := {| ai.provider := provider |};
     hub.enricher := enrichment.NewEnricher
                       {| enrichment.ThreatForge := true; enrichment.EntraID := false;
                          enrichment.Okta := false; enrichment.Asset := true |};
     hub.correlator := NewCorrelator;
     hub.outputChan := [];
     hub.logger := [] |}.

Definition runtime : hub.Runtime :=
  {| hub.fresh := 1; hub.order := []; hub.clk := still t1 |}.

End scenario.

(** ** The shape of an identifier *)
Module format.

Definition hex_digits : list ascii := list_ascii_of_string "0123456789abcdef".

(** Every byte of the string is a lowercase hexadecimal digit. *)
Definition is_hex (s : string) : Prop :=
  Forall (fun c => c ∈ hex_digits) (list_ascii_of_string s).

End format.

(** ** Further scenarios *)
Module scenario2.
Import normalization correlation sample scenario.

(** The table of [old_and_new] ranged over the other way round. *)
Definition sweep_order_rev : list string := Eval vm_compute in rev sweep_order.

(** [e_both], which shares its address key with the group of [e_ip],
    correlated after the sweep has removed that group. *)
Definition swept : Correlator := sweep sweep_order sweep_time (run old_and_new).
Definition after_sweep : string * Correlator :=
  Correlate sweep_order (still sweep_time) swept e_both.

(** A sweep half an hour after [e_both] joined the group of [e_ip]. *)
Definition half_hour : time.Time :=
  at_ 1800000000000 "2026-01-05 10:29:59 +0000 UTC m=+1800.000000000".

End scenario2.

(** ** The order of the risk levels *)
Module risk.

Definition rank (level : string) : nat :=
  if String.eqb level "critical" then 4
  else if String.eqb level "high" then 3
  else if String.eqb level "medium" then 2
  else if String.eqb level "low" then 1
  else 0.

(** A judgment that carries the score [s] and nothing else. *)
Definition scored (s : float) : ai.RiskAnalysis :=
  {| ai.RiskScore := s; ai.RiskLevel := ""; ai.Summary := ""; ai.Indicators := [];
     ai.MITRETactics := []; ai.MITRETechniques := []; ai.Recommendations := [];
     ai.Confidence := 0; ai.RawContext := "" |}.

End risk.

(** ** Pipelines with a full and with a filling queue *)
Module scenario3.
Import normalization correlation sample scenario.

Definition filler : hub.ProcessedEvent :=
  {| hub.ID := "evt-0"; hub.Timestamp := t1; hub.Source := "crowdstrike";
     hub.SourceType := "edr"; hub.NormalizedData := ∅; hub.RawData := ∅;
     hub.AIAnalysis := None; hub.Enrichments := ∅; hub.CorrelationID := "";
     hub.RiskScore := 0; hub.RiskLevel := "unknown";
     hub.MITRETactics := []; hub.MITRETechniques := [] |}.

(** The pipeline of [scenario.pipeline] with [n] records waiting in the
    output queue. *)
Definition queued (n : nat) (schema : string) (provider : ai.Provider) : hub.Pipeline :=
  {| hub.normalizer := schema;
     hub.aiAnalyzer := {| ai.provider := provider |};
     hub.enricher := hub.enricher (pipeline schema provider);
     hub.correlator := NewCorrelator;
     hub.outputChan := repeat filler n;
     hub.logger := [] |}.

End scenario3.

(** ** internal/config: the configuration the constructors read *)
Module config.

Record ServerConfig : Type := { Port : Z; ReadTimeout : Z; WriteTimeout : Z }.

Record AnthropicConfig : Type := { anthropic_Model : string; anthropic_APIKeyEnv : string }.
Record OpenAIConfig : Type := { openai_Model : string; openai_APIKeyEnv : string }.

Record AIConfig : Type := {
  Provider : string;
  Anthropic : AnthropicConfig;
  OpenAI : OpenAIConfig
}.

Record NormalizationConfig : Type := { DefaultSchema : string }.

(** The [Enabled] switch of each source that has a collector. *)
Record IngestionConfig : Type := {
  CrowdStrike : bool; SentinelOne : bool; Defender : bool;
  Splunk : bool; Elasticsearch : bool;
  AWS : bool; Azure : bool; GCP : bool;
  DigitalGuardian : bool; Proofpoint : bool; Purview : bool; Netskope : bool
}.

(** The configuration; [Rest] stands for the sections [Load] leaves as
    they were decoded (output and DR/BC settings). *)
Record Config (Rest : Type) : Type := {
  Server : ServerConfig;
  AI : AIConfig;
  Ingestion : IngestionConfig;
  Normalization : NormalizationConfig;
  Enrichment : enrichment.EnrichmentConfig;
  rest : Rest
}.
Arguments Server {Rest} _.
Arguments AI {Rest} _.
Arguments Ingestion {Rest} _.
Arguments Normalization {Rest} _.
Arguments Enrichment {Rest} _.
Arguments rest {Rest} _.

Section Load.

Context {Rest : Type}.

(** [os.ReadFile] and [yaml.Unmarshal] into a zero [Config]. *)
Variable ReadFile : string -> string + string.
Variable yaml_Unmarshal : string -> Config Rest + string.

Definition Load (path : string) : Config Rest + string :=
  match ReadFile path with
  | inr err => inr ("reading config file: " +:+ err)
  | inl data =>
      match yaml_Unmarshal data with
      | inr err => inr ("parsing config: " +:+ err)
      | inl cfg =>
          (* Set defaults *)
          let server :=
            if Port (Server cfg) =? 0
            then {| Port := 8080; ReadTimeout := ReadTimeout (Server cfg);
                    WriteTimeout := WriteTimeout (Server cfg) |}
            else Server cfg in
          let provider :=
            if String.eqb (Provider (AI cfg)) "" then "anthropic" else Provider (AI cfg) in
          let anthropic :=
            if String.eqb (anthropic_Model (Anthropic (AI cfg))) ""
            then {| anthropic_Model := "claude-opus-4-5-20250514";
                    anthropic_APIKeyEnv := anthropic_APIKeyEnv (Anthropic (AI cfg)) |}
            else Anthropic (AI cfg) in
          let openai :=
            if String.eqb (openai_Model (OpenAI (AI cfg))) ""
            then {| openai_Model := "gpt-4-turbo";
                    openai_APIKeyEnv := openai_APIKeyEnv (OpenAI (AI cfg)) |}
            else OpenAI (AI cfg) in
          let normalization :=
            if String.eqb (DefaultSchema (Normalization cfg)) ""
            then {| DefaultSchema := "ocsf" |}
            else Normalization cfg in
          inl {| Server := server;
                 AI := {| Provider := provider; Anthropic := anthropic; OpenAI := openai |};
                 Ingestion := Ingestion cfg;
                 Normalization := normalization;
                 Enrichment := Enrichment cfg;
                 rest := rest cfg |}
      end
  end.

End Load.

End config.

(** ** internal/ai: the providers and [NewAnalyzer] *)
Module providers.

Record AnthropicProvider : Type := {
  anthropic_apiKey : string;
  anthropic_model : string;
  anthropic_timeout : time.Duration
}.

Record OpenAIProvider : Type := {
  openai_apiKey : string;
  openai_model : string;
  openai_timeout : time.Duration
}.

Section Providers.

(** [os.Getenv], and the exchange with each service that [Analyze]
    makes over the network. *)
Variable Getenv : string -> string.
Variable anthropic_Analyze : AnthropicProvider -> string -> ai.Response + string.
Variable openai_Analyze : OpenAIProvider -> string -> ai.Response + string.

Definition NewAnthropicProvider (cfg : config.AnthropicConfig) : AnthropicProvider + string :=
  let apiKey := Getenv (config.anthropic_APIKeyEnv cfg) in
  if String.eqb apiKey ""
  then inr ("API key environment variable " +:+ config.anthropic_APIKeyEnv cfg +:+ " not set")
  else inl {| anthropic_apiKey := apiKey;
              anthropic_model := config.anthropic_Model cfg;
              anthropic_timeout := 120 * time.Second |}.

Definition NewOpenAIProvider (cfg : config.OpenAIConfig) : OpenAIProvider + string :=
  let apiKey := Getenv (config.openai_APIKeyEnv cfg) in
  if String.eqb apiKey ""
  then inr ("API key environment variable " +:+ config.openai_APIKeyEnv cfg +:+ " not set")
  else inl {| openai_apiKey := apiKey;
              openai_model := config.openai_Model cfg;
              openai_timeout := 120 * time.Second |}.

(** The analyzer and the record logged, or the error. *)
Definition NewAnalyzer (cfg : config.AIConfig) : (ai.Analyzer * list entry) + string :=
  let made : option (ai.Provider + string) :=
    if String.eqb (config.Provider cfg) "anthropic" then
      Some match NewAnthropicProvider (config.Anthropic cfg) with
           | inl p => inl {| ai.Analyze := anthropic_Analyze p; ai.Name := "anthropic" |}
           | inr err => inr err
           end
    else if String.eqb (config.Provider cfg) "openai" then
      Some match NewOpenAIProvider (config.OpenAI cfg) with
           | inl p => inl {| ai.Analyze := openai_Analyze p; ai.Name := "openai" |}
           | inr err => inr err
           end
    else None in
  match made with
  | None => inr ("unsupported AI provider: " +:+ config.Provider cfg)
  | Some (inr err) =>
      inr ("initializing AI provider " +:+ config.Provider cfg +:+ ": " +:+ err)
  | Some (inl provider) =>
      inl ({| ai.provider := provider |}, [(Info, "AI analyzer initialized")])
  end.

End Providers.

End providers.

(** ** internal/ingestion: the collectors and their manager *)
Module manager.

(** A collector: what [BaseCollector] holds. *)
Record Collector : Type := { Name : string; Type_ : string; Enabled : bool }.

Definition NewCrowdStrikeCollector (enabled : bool) : Collector :=
  {| Name := "crowdstrike"; Type_ := "edr"; Enabled := enabled |}.
Definition NewSentinelOneCollector (enabled : bool) : Collector :=
  {| Name := "sentinelone"; Type_ := "edr"; Enabled := enabled |}.
Definition NewDefenderCollector (enabled : bool) : Collector :=
  {| Name := "defender"; Type_ := "edr"; Enabled := enabled |}.
Definition NewSplunkCollector (enabled : bool) : Collector :=
  {| Name := "splunk"; Type_ := "siem"; Enabled := enabled |}.
Definition NewElasticsearchCollector (enabled : bool) : Collector :=
  {| Name := "elasticsearch"; Type_ := "siem"; Enabled := enabled |}.
Definition NewAWSCloudTrailCollector (enabled : bool) : Collector :=
  {| Name := "aws-cloudtrail"; Type_ := "cloud"; Enabled := enabled |}.
Definition NewAzureActivityCollector (enabled : bool) : Collector :=
  {| Name := "azure-activity"; Type_ := "cloud"; Enabled := enabled |}.
Definition NewGCPAuditCollector (enabled : bool) : Collector :=
  {| Name := "gcp-audit"; Type_ := "cloud"; Enabled := enabled |}.
Definition NewDigitalGuardianCollector (enabled : bool) : Collector :=
  {| Name := "digital-guardian"; Type_ := "dlp"; Enabled := enabled |}.
Definition NewProofpointCollector (enabled : bool) : Collector :=
  {| Name := "proofpoint"; Type_ := "dlp"; Enabled := enabled |}.
Definition NewPurviewCollector (enabled : bool) : Collector :=
  {| Name := "purview"; Type_ := "dlp"; Enabled := enabled |}.
Definition NewNetskopeCollector (enabled : bool) : Collector :=
  {| Name := "netskope"; Type_ := "dlp"; Enabled := enabled |}.

Record Manager : Type := { collectors : list Collector }.

(** One [if cfg.X.Enabled { collectors = append(collectors, NewX(cfg.X)) }]. *)
Definition add (enabled : bool) (new : bool -> Collector) (cs : list Collector)
  : list Collector :=
  if enabled then cs ++ [new enabled] else cs.

Definition NewManager (cfg : config.IngestionConfig) : Manager :=
  let cs := [] in
  let cs := add (config.CrowdStrike cfg) NewCrowdStrikeCollector cs in
  let cs := add (config.SentinelOne cfg) NewSentinelOneCollector cs in
  let cs := add (config.Defender cfg) NewDefenderCollector cs in
  let cs := add (config.Splunk cfg) NewSplunkCollector cs in
  let cs := add (config.Elasticsearch cfg) NewElasticsearchCollector cs in
  let cs := add (config.AWS cfg) NewAWSCloudTrailCollector cs in
  let cs := add (config.Azure cfg) NewAzureActivityCollector cs in
  let cs := add (config.GCP cfg) NewGCPAuditCollector cs in
  let cs := add (config.DigitalGuardian cfg) NewDigitalGuardianCollector cs in
  let cs := add (config.Proofpoint cfg) NewProofpointCollector cs in
  let cs := add (config.Purview cfg) NewPurviewCollector cs in
  let cs := add (config.Netskope cfg) NewNetskopeCollector cs in
  {| collectors := cs |}.

Record CollectorStatus : Type := {
  status_Name : string;
  status_Type : string;
  status_Enabled : bool
}.

Definition GetCollectorStatus (m : Manager) : list CollectorStatus :=
  map (fun c => {| status_Name := Name c; status_Type := Type_ c;
                   status_Enabled := Enabled c |}) (collectors m).

(** The collectors for which [Start] launches a task. *)
Definition started (m : Manager) : list Collector :=
  List.filter Enabled (collectors m).

(** [CreateRawEvent]; [now] is the reading [time.Now().UTC()]. *)
Definition CreateRawEvent (now : time.Time) (id source sourceType : string)
           (data : gmap string any) : ingestion.RawEvent :=
  {| ingestion.ID := id; ingestion.Timestamp := now; ingestion.Source := source;
     ingestion.SourceType := sourceType; ingestion.Data := data |}.

End manager.

(** Settings for the examples. *)
Module scenario4.

Definition some_sources : config.IngestionConfig :=
  {| config.CrowdStrike := true; config.SentinelOne := false; config.Defender := false;
     config.Splunk := true; config.Elasticsearch := false;
     config.AWS := false; config.Azure := true; config.GCP := false;
     config.DigitalGuardian := false; config.Proofpoint := false;
     config.Purview := false; config.Netskope := true |}.

Definition unset : config.Config unit :=
  {| config.Server := {| config.Port := 0; config.ReadTimeout := 0; config.WriteTimeout := 0 |};
     config.AI := {| config.Provider := "";
                     config.Anthropic := {| config.anthropic_Model := "";
                                            config.anthropic_APIKeyEnv := "ANTHROPIC_API_KEY" |};
                     config.OpenAI := {| config.openai_Model := "";
                                         config.openai_APIKeyEnv := "OPENAI_API_KEY" |} |};
     config.Ingestion := some_sources;
     config.Normalization := {| config.DefaultSchema := "" |};
     config.Enrichment := {| enrichment.ThreatForge := true; enrichment.EntraID := false;
                             enrichment.Okta := true; enrichment.Asset := false |};
     config.rest := tt |}.

Definition read_ok (path : string) : string + string := inl "server: {}".
Definition decode_unset (data : string) : config.Config unit + string := inl unset.

(** An environment with the Anthropic key only. *)
Definition env (name : string) : string :=
  if String.eqb name "ANTHROPIC_API_KEY" then "sk-test" else "".

Definition offline_a (p : providers.AnthropicProvider) (prompt : string)
  : ai.Response + string := inr "offline".
Definition offline_o (p : providers.OpenAIProvider) (prompt : string)
  : ai.Response + string := inr "offline".

End scenario4.

(** ** Sources that fail *)
Module sources.
Import normalization enrichment.

(** The source is enabled and its call on the event fails. *)
Definition failing (event : NormalizedEvent) (s : EnrichmentSource) : bool :=
  source_Enabled s && match source_Enrich s event with inr _ => true | inl _ => false end.

End sources.

(** ** The collectors, as a table of switches *)
Module roster.
Import manager.

Definition table (cfg : config.IngestionConfig) : list (bool * Collector) :=
  [ (config.CrowdStrike cfg, NewCrowdStrikeCollector true);
    (config.SentinelOne cfg, NewSentinelOneCollector true);
    (config.Defender cfg, NewDefenderCollector true);
    (config.Splunk cfg, NewSplunkCollector true);
    (config.Elasticsearch cfg, NewElasticsearchCollector true);
    (config.AWS cfg, NewAWSCloudTrailCollector true);
    (config.Azure cfg, NewAzureActivityCollector true);
    (config.GCP cfg, NewGCPAuditCollector true);
    (config.DigitalGuardian cfg, NewDigitalGuardianCollector true);
    (config.Proofpoint cfg, NewProofpointCollector true);
    (config.Purview cfg, NewPurviewCollector true);
    (config.Netskope cfg, NewNetskopeCollector true) ].

Definition pick (bc : bool * Collector) : list Collector :=
  if fst bc then [snd bc] else [].

End roster.

(** ** internal/ticketing *)
Module ticketing.

(** A read [v, ok := mapping[k]] of a map literal. *)
Fixpoint lookup (mapping : list (string * string)) (k : string) : option string :=
  match mapping with
  | [] => None
  | (k', v) :: r => if String.eqb k k' then Some v else lookup r k
  end.

(** *** The ServiceNow provider's mappings *)
Definition mapPriorityToUrgency (priority : string) : string :=
  let mapping := [("critical", "1"); ("high", "2"); ("medium", "3"); ("low", "4")] in
  match lookup mapping priority with Some u => u | None => "3" end.

Definition mapSeverityToImpact (severity : string) : string :=
  let mapping := [("critical", "1"); ("high", "2"); ("medium", "3"); ("low", "4")] in
  match lookup mapping severity with Some i => i | None => "3" end.

Definition mapStatusToState (status : string) : string :=
  let mapping := [("new", "1"); ("in_progress", "2"); ("on_hold", "3");
                  ("resolved", "6"); ("closed", "7")] in
  match lookup mapping status with Some s => s | None => "1" end.

Definition mapStateToStatus (state : string) : string :=
  let mapping := [("1", "new"); ("2", "in_progress"); ("3", "on_hold");
                  ("6", "resolved"); ("7", "closed")] in
  match lookup mapping state with Some s => s | None => "unknown" end.

Definition mapUrgencyToPriority (urgency : string) : string :=
  let mapping := [("1", "critical"); ("2", "high"); ("3", "medium"); ("4", "low")] in
  match lookup mapping urgency with Some p => p | None => "medium" end.

(** *** The manager *)
Record Ticket : Type := {
  ID : string;
  ExternalID : string;
  Type_ : string;
  Title : string;
  Description : string;
  Priority : string;
  Severity : string;
  Status : string;
  AssignmentGroup : string;
  AssignedTo : string;
  Category : string;
  Subcategory : string;
  Source : string;
  SourceEventID : string;
  RiskScore : float;
  MITRETactics : list string;
  MITRETechniques : list string;
  AffectedAssets : list string;
  Remediation : string;
  DueDate : option time.Time;
  CreatedAt : time.Time;
  UpdatedAt : time.Time;
  ClosedAt : option time.Time;
  CustomFields : gmap string string
}.

Record TicketResult : Type := {
  TicketID : string;
  TicketURL : string;
  result_ExternalID : string
}.

(** The [Provider] interface, by the methods the manager calls. *)
Record Provider : Type := {
  Name : string;
  CreateTicket : Ticket -> TicketResult + string
}.

Record AssignmentRule : Type := { Condition : string; rule_AssignmentGroup : string }.

Record ManagerConfig : Type := {
  DefaultProvider : string;
  AutoCreateTicket : bool;
  MinRiskScore : float;
  PriorityMapping : gmap string string;
  AssignmentRules : list AssignmentRule
}.

Record Manager : Type := {
  providers : gmap string Provider;
  cfg : ManagerConfig;
  logged : list entry
}.

Record SecurityEvent : Type := {
  event_ID : string;
  event_Type : string;
  event_Source : string;
  event_Timestamp : time.Time;
  event_RiskScore : float;
  event_RiskLevel : string;
  Summary : string;
  event_Description : string;
  event_MITRETactics : list string;
  event_MITRETechniques : list string;
  event_AffectedAssets : list string;
  Recommendations : list string;
  RawData : gmap string any
}.

Definition NewManager (c : ManagerConfig) : Manager :=
  {| providers := ∅; cfg := c; logged := [] |}.

Definition RegisterProvider (m : Manager) (provider : Provider) : Manager :=
  {| providers := <[Name provider := provider]> (providers m);
     cfg := cfg m;
     logged := logged m ++ [(Info, "Registered ticketing provider")] |}.

Definition GetProvider (m : Manager) (name : string) : option Provider :=
  providers m !! name.

(** The line feed. *)
Definition nl : string := String (ascii_of_nat 10) EmptyString.

(** [now1] and [now2] are the readings taken for [CreatedAt] and
    [UpdatedAt]. *)
Definition eventToTicket (m : Manager) (now1 now2 : time.Time) (event : SecurityEvent)
  : Ticket :=
  let priority :=
    match PriorityMapping (cfg m) !! event_RiskLevel event with
    | Some p => p
    | None => "medium"
    end in
  let assignmentGroup :=
    fold_left
      (fun group rule =>
         if String.eqb (Condition rule) "default" then rule_AssignmentGroup rule else group)
      (AssignmentRules (cfg m)) "Security Operations" in
  let description :=
    match Recommendations event with
    | [] => event_Description event
    | _ :: _ =>
        fold_left (fun d rec => d +:+ "- " +:+ rec +:+ nl) (Recommendations event)
          (event_Description event +:+ nl +:+ nl +:+ "Recommendations:" +:+ nl)
    end in
  {| ID := ""; ExternalID := ""; Type_ := "incident"; Title := Summary event;
     Description := description; Priority := priority; Severity := event_RiskLevel event;
     Status := "new"; AssignmentGroup := assignmentGroup; AssignedTo := "";
     Category := "Security"; Subcategory := event_Type event;
     Source := "threat-telemetry-hub"; SourceEventID := event_ID event;
     RiskScore := event_RiskScore event;
     MITRETactics := event_MITRETactics event;
     MITRETechniques := event_MITRETechniques event;
     AffectedAssets := event_AffectedAssets event;
     Remediation := ""; DueDate := None;
     CreatedAt := now1; UpdatedAt := now2; ClosedAt := None;
     CustomFields := ∅ |}.

(** The result ([None] for the nil result without error), or the error
    of the provider, and the records logged. *)
Definition CreateTicketForEvent (m : Manager) (now1 now2 : time.Time)
           (event : SecurityEvent) : (option TicketResult + string) * list entry :=
  if negb (AutoCreateTicket (cfg m)) then (inl None, [])
  else if (event_RiskScore event <? MinRiskScore (cfg m))%float then (inl None, [])
  else
    match providers m !! DefaultProvider (cfg m) with
    | None => (inl None, [(Warn, "Default ticketing provider not found")])
    | Some provider =>
        let ticket := eventToTicket m now1 now2 event in
        match CreateTicket provider ticket with
        | inr err => (inr err, [])
        | inl result => (inl (Some result), [(Info, "Created ticket for security event")])
        end
    end.

End ticketing.

(** ** internal/compliance *)
Module compliance.

Record CVEReference : Type := {
  ID : string;
  URL : string;
  NVDUrl : string;
  Description : string;
  CVSS : float;
  CVSSVector : string;
  Published : time.Time
}.

Record AssigneeInfo : Type := {
  UserID : string; UserEmail : string; UserName : string; assignee_Team : string;
  AssignedAt : time.Time; AssignedBy : string; assignee_DueDate : option time.Time
}.

Record Contact : Type := { contact_Name : string; Email : string; contact_Team : string }.

Record Finding : Type := {
  finding_ID : string;
  Source : string;
  SourceFindingID : string;
  Type_ : string;
  Category : string;
  Title : string;
  finding_Description : string;
  ResourceType : string;
  ResourceID : string;
  ResourceName : string;
  Hostname : string;
  SerialNumber : string;
  IPAddress : string;
  Platform : string;
  CloudProvider : string;
  Region : string;
  AccountID : string;
  EnvironmentType : string;
  StaticSeverity : string;
  Severity : string;
  AIRiskScore : float;
  AIRiskLevel : string;
  AIRiskRationale : string;
  AIContextualFactors : list string;
  CVEs : list CVEReference;
  CWEs : list string;
  MITRETactics : list string;
  MITRETechniques : list string;
  Remediation : string;
  RemediationSteps : list string;
  Status : string;
  WorkflowStatus : string;
  Assignee : option AssigneeInfo;
  TechnicalContact : option Contact;
  ServiceName : string;
  LineOfBusiness : string;
  Team : string;
  FirstFoundAt : time.Time;
  LastSeenAt : time.Time;
  ResolvedAt : option time.Time;
  DueDate : option time.Time;
  DeduplicationKey : string;
  CanonicalRuleID : string;
  RelatedRules : list string;
  TicketID : string;
  TicketURL : string;
  TicketStatus : string;
  RawData : gmap string any;
  Tags : gmap string string
}.

(** [strings.Join]. *)
Fixpoint Join (elems : list string) (sep : string) : string :=
  match elems with
  | [] => ""
  | [e] => e
  | e :: rest => e +:+ sep +:+ Join rest sep
  end.

Definition GenerateDeduplicationKey (f : Finding) : string :=
  let components := [ResourceType f; ResourceID f; CanonicalRuleID f; Title f] in
  let components := fold_left (fun cs cve => cs ++ [ID cve]) (CVEs f) components in
  let data := Join components "|" in
  let hash := sha256.Sum data in
  hex.EncodeToString (firstn 16 hash).

Definition BuildCVEURLs (c : CVEReference) : CVEReference :=
  if String.eqb (ID c) "" then c
  else
    let nvd := "https://nvd.nist.gov/vuln/detail/" +:+ ID c in
    {| ID := ID c; URL := nvd; NVDUrl := nvd; Description := Description c;
       CVSS := CVSS c; CVSSVector := CVSSVector c; Published := Published c |}.

(** The finding after the loop over its references; the other fields are
    not written. *)
Definition with_CVEs (f : Finding) (cves : list CVEReference) : Finding :=
  {| finding_ID := finding_ID f; Source := Source f; SourceFindingID := SourceFindingID f;
     Type_ := Type_ f; Category := Category f; Title := Title f;
     finding_Description := finding_Description f; ResourceType := ResourceType f;
     ResourceID := ResourceID f; ResourceName := ResourceName f; Hostname := Hostname f;
     SerialNumber := SerialNumber f; IPAddress := IPAddress f; Platform := Platform f;
     CloudProvider := CloudProvider f; Region := Region f; AccountID := AccountID f;
     EnvironmentType := EnvironmentType f; StaticSeverity := StaticSeverity f;
     Severity := Severity f; AIRiskScore := AIRiskScore f; AIRiskLevel := AIRiskLevel f;
     AIRiskRationale := AIRiskRationale f; AIContextualFactors := AIContextualFactors f;
     CVEs := cves; CWEs := CWEs f; MITRETactics := MITRETactics f;
     MITRETechniques := MITRETechniques f; Remediation := Remediation f;
     RemediationSteps := RemediationSteps f; Status := Status f;
     WorkflowStatus := WorkflowStatus f; Assignee := Assignee f;
     TechnicalContact := TechnicalContact f; ServiceName := ServiceName f;
     LineOfBusiness := LineOfBusiness f; Team := Team f; FirstFoundAt := FirstFoundAt f;
     LastSeenAt := LastSeenAt f; ResolvedAt := ResolvedAt f; DueDate := DueDate f;
     DeduplicationKey := DeduplicationKey f; CanonicalRuleID := CanonicalRuleID f;
     RelatedRules := RelatedRules f; TicketID := TicketID f; TicketURL := TicketURL f;
     TicketStatus := TicketStatus f; RawData := RawData f; Tags := Tags f |}.

Definition EnrichCVEReferences (f : Finding) : Finding :=
  with_CVEs f (map BuildCVEURLs (CVEs f)).

End compliance.

(** ** A service desk and its callers *)
Module scenario5.
Import ticketing.
#[local] Set Warnings "-inexact-float".

(** A provider registered under [name] that answers every request with
    [reply]. *)
Definition desk (name : string) (reply : TicketResult + string) : Provider :=
  {| Name := name; CreateTicket := fun _ => reply |}.

Definition opened : TicketResult :=
  {| TicketID := "46d44a5dc0a8010e"; TicketURL := "https://desk.example/incident";
     result_ExternalID := "INC0010002" |}.

Definition policy : ManagerConfig :=
  {| DefaultProvider := "servicenow"; AutoCreateTicket := true; MinRiskScore := 0.7;
     PriorityMapping := {[ "critical" := "critical" ]};
     AssignmentRules :=
       [ {| Condition := "default"; rule_AssignmentGroup := "SOC Tier 1" |};
         {| Condition := "category == 'malware'"; rule_AssignmentGroup := "Malware" |};
         {| Condition := "default"; rule_AssignmentGroup := "SOC Tier 2" |} ] |}.

Definition alert : SecurityEvent :=
  {| event_ID := "evt-7"; event_Type := "malware"; event_Source := "crowdstrike";
     event_Timestamp := sample.t1; event_RiskScore := 0.9; event_RiskLevel := "critical";
     Summary := "Ransomware on host-1"; event_Description := "Files were encrypted.";
     event_MITRETactics := ["impact"]; event_MITRETechniques := ["T1486"];
     event_AffectedAssets := ["host-1"]; Recommendations := ["Isolate the host"];
     RawData := ∅ |}.

(** The statuses and the priorities the ServiceNow provider knows. *)
Definition statuses : list string := ["new"; "in_progress"; "on_hold"; "resolved"; "closed"].
Definition states : list string := ["1"; "2"; "3"; "6"; "7"].
Definition priorities : list string := ["critical"; "high"; "medium"; "low"].

(** The rules whose condition is the text [default]. *)
Definition defaults (rules : list AssignmentRule) : list AssignmentRule :=
  List.filter (fun rule => String.eqb (Condition rule) "default") rules.

End scenario5.

(** ** Findings that differ in title and references only *)
Module scenario6.
Import compliance.

Definition reference (id : string) : CVEReference :=
  {| ID := id; URL := ""; NVDUrl := ""; Description := ""; CVSS := 0; CVSSVector := "";
     Published := sample.t1 |}.

Definition titled (title : string) (cves : list CVEReference) : Finding :=
  {| finding_ID := "f-1"; Source := "scanner"; SourceFindingID := "s-1";
     Type_ := "vulnerability"; Category := "patching"; Title := title;
     finding_Description := ""; ResourceType := "vm"; ResourceID := "i-0abc";
     ResourceName := "web-1"; Hostname := ""; SerialNumber := ""; IPAddress := "";
     Platform := "aws"; CloudProvider := "aws"; Region := "eu-west-1";
     AccountID := "111122223333"; EnvironmentType := "production";
     StaticSeverity := "high"; Severity := "high"; AIRiskScore := 0; AIRiskLevel := "";
     AIRiskRationale := ""; AIContextualFactors := []; CVEs := cves; CWEs := [];
     MITRETactics := []; MITRETechniques := []; Remediation := "";
     RemediationSteps := []; Status := "open"; WorkflowStatus := "new";
     Assignee := None; TechnicalContact := None; ServiceName := "";
     LineOfBusiness := ""; Team := ""; FirstFoundAt := sample.t1;
     LastSeenAt := sample.t1; ResolvedAt := None; DueDate := None;
     DeduplicationKey := ""; CanonicalRuleID := "RULE-9"; RelatedRules := [];
     TicketID := ""; TicketURL := ""; TicketStatus := ""; RawData := ∅; Tags := ∅ |}.

End scenario6.

(** * Properties *)

Example sha256_abc :
  hex.EncodeToString (sha256.Sum "abc")
  = "ba7816bf8f01cfea414140de5dae2223b00361a396177a9cb410ff61f20015ad".
Proof. vm_compute. reflexivity. Qed.

Example sha256_empty :
  hex.EncodeToString (sha256.Sum "")
  = "e3b0c44298fc1c149afbf4c8996fb92427ae41e4649b934ca495991b7852b855".
Proof. vm_compute. reflexivity. Qed.

Example sha256_two_blocks :
  hex.EncodeToString
    (sha256.Sum "abcdbcdecdefdefgefghfghighijhijkijkljklmklmnlmnomnopnopq")
  = "248d6a61d20638b8e5c026930c3e6039a33ce45964ff2167f6ecedd419db06c1".
Proof. vm_compute. reflexivity. Qed.

Example sha256_round_constants :
  nth 0 sha256._K 0 = 0x428a2f98 ∧ nth 63 sha256._K 0 = 0xc67178f2
  ∧ length sha256._K = 64%nat ∧ nth 7 sha256.init 0 = 0x5be0cd19.
Proof. vm_compute. repeat split; reflexivity. Qed.

(** ** Risk aggregation *)
Section Risk.
Import hub.
#[local] Set Warnings "-inexact-float".

(** Comparing in the other direction gives the opposite answer. *)
Lemma SFcompare_swap (a b : spec_float) :
  SFcompare b a = option_map CompOpp (SFcompare a b).
Proof.
  destruct a as [sa | sa | | sa ma ea], b as [sb | sb | | sb mb eb];
    try destruct sa; try destruct sb; simpl; try reflexivity.
  - rewrite (Z.compare_antisym eb ea).
    destruct (eb ?= ea)%Z; simpl; try reflexivity.
    rewrite !Pos.compare_cont_spec. simpl.
    rewrite (Pos.compare_antisym mb ma). now destruct (mb ?= ma)%positive.
  - rewrite (Z.compare_antisym eb ea).
    destruct (eb ?= ea)%Z; simpl; try reflexivity.
    rewrite !Pos.compare_cont_spec. simpl.
    rewrite (Pos.compare_antisym mb ma). now destruct (mb ?= ma)%positive.
Qed.

(** Go's [x < y] excludes [y <= x]. *)
Lemma ltb_not_leb (x y : float) :
  (x <? y)%float = true -> (y <=? x)%float = false.
Proof.
  rewrite ltb_spec, leb_spec. unfold SFltb, SFleb.
  rewrite (SFcompare_swap (Prim2SF x) (Prim2SF y)).
  destruct (SFcompare (Prim2SF x) (Prim2SF y)) as [[]|]; simpl; congruence.
Qed.

Lemma SFleb_trans (a b c : spec_float) :
  SFleb a b = true -> SFleb b c = true -> SFleb a c = true.
Proof.
  unfold SFleb.
  destruct a as [sa | sa | | sa ma ea], b as [sb | sb | | sb mb eb],
           c as [sc | sc | | sc mc ec];
    try destruct sa; try destruct sb; try destruct sc; simpl;
    try congruence; rewrite ?Pos.compare_cont_spec; simpl;
    destruct (Z.compare_spec ea eb), (Z.compare_spec eb ec), (Z.compare_spec ea ec);
    try congruence; try lia; subst;
    destruct (Pos.compare_spec ma mb), (Pos.compare_spec mb mc), (Pos.compare_spec ma mc);
    simpl; try congruence; try lia.
Qed.

Lemma leb_trans (x y z : float) :
  (x <=? y)%float = true -> (y <=? z)%float = true -> (x <=? z)%float = true.
Proof. rewrite !leb_spec. apply SFleb_trans. Qed.

(** A score below a threshold is below every larger threshold. *)
Lemma below_larger (lo hi s : float) :
  (lo <=? hi)%float = true -> (s <? lo)%float = true -> (hi <=? s)%float = false.
Proof.
  intros Hle Hlt. apply ltb_not_leb in Hlt.
  destruct (hi <=? s)%float eqn:E; [|reflexivity].
  rewrite (leb_trans lo hi s Hle E) in Hlt. discriminate.
Qed.

(** C4. [calculateRisk] on a judgment of score [s] returns [s] itself
    and the level of the first threshold [s] reaches: critical from 0.9,
    high in [0.7, 0.9), medium in [0.4, 0.7), low in [0.1, 0.4), info
    below 0.1; without a judgment it returns 0.0 and "unknown", which is
    not "info". *)
Theorem C4_calculateRisk_thresholds (a : ai.RiskAnalysis) (event : normalization.NormalizedEvent) :
  let s := ai.RiskScore a in
  let level := snd (calculateRisk (Some a) event) in
  fst (calculateRisk (Some a) event) = s
  ∧ ((0.9 <=? s)%float = true -> level = "critical")
  ∧ ((0.7 <=? s)%float = true -> (s <? 0.9)%float = true -> level = "high")
  ∧ ((0.4 <=? s)%float = true -> (s <? 0.7)%float = true -> level = "medium")
  ∧ ((0.1 <=? s)%float = true -> (s <? 0.4)%float = true -> level = "low")
  ∧ ((s <? 0.1)%float = true -> level = "info")
  ∧ calculateRisk None event = (0.0%float, "unknown")
  ∧ String.eqb "unknown" "info" = false.
Proof.
  intros s level. subst level. unfold calculateRisk. fold s. simpl.
  assert (H79 : (0.7 <=? 0.9)%float = true) by reflexivity.
  assert (H47 : (0.4 <=? 0.7)%float = true) by reflexivity.
  assert (H14 : (0.1 <=? 0.4)%float = true) by reflexivity.
  assert (H49 := leb_trans 0.4 0.7 0.9 H47 H79).
  assert (H19 := leb_trans 0.1 0.4 0.9 H14 H49).
  assert (H17 := leb_trans 0.1 0.4 0.7 H14 H47).
  repeat split.
  - intros ->. reflexivity.
  - intros H7 H9. rewrite (ltb_not_leb _ _ H9), H7. reflexivity.
  - intros H4 H7.
    rewrite (below_larger 0.7 0.9 s H79 H7), (ltb_not_leb _ _ H7), H4. reflexivity.
  - intros H1 H4.
    rewrite (below_larger 0.4 0.9 s H49 H4), (below_larger 0.4 0.7 s H47 H4),
      (ltb_not_leb _ _ H4), H1. reflexivity.
  - intros H1.
    rewrite (below_larger 0.1 0.9 s H19 H1), (below_larger 0.1 0.7 s H17 H1),
      (below_larger 0.1 0.4 s H14 H1), (ltb_not_leb _ _ H1). reflexivity.
Qed.

(** The scores the specification lists, and the fallback's 0.5. *)
Example calculateRisk_samples :
  let judged s :=
    Some {| ai.RiskScore := s; ai.RiskLevel := ""; ai.Summary := ""; ai.Indicators := [];
            ai.MITRETactics := []; ai.MITRETechniques := []; ai.Recommendations := [];
            ai.Confidence := 0; ai.RawContext := "" |} in
  let ev := normalization.normalizeToOCSF
              {| ingestion.ID := ""; ingestion.Timestamp := {| time.nanos := 0; time.text := "" |};
                 ingestion.Source := ""; ingestion.SourceType := ""; ingestion.Data := ∅ |} in
  map (fun s => snd (calculateRisk (judged s) ev)) [0.95; 0.75; 0.5; 0.15; 0.05]%float
  = ["critical"; "high"; "medium"; "low"; "info"].
Proof. reflexivity. Qed.

End Risk.

(** ** Key extraction *)
Section Keys.
Import normalization correlation.

Lemma append_assoc (a b c : string) : (a +:+ b) +:+ c = a +:+ (b +:+ c).
Proof.
  induction a as [|x a IH]; [reflexivity|].
  change (String x ((a +:+ b) +:+ c) = String x (a +:+ (b +:+ c))).
  now rewrite IH.
Qed.

(** One [if] of [extractCorrelationKeys] appends what the rule yields
    for its attribute. *)
Lemma extract_step (event : NormalizedEvent) (acc : list string) (attr kind pfx : string) :
  pfx = kind +:+ ":" ->
  match assert_string (Data event !! attr) with
  | Some v => if negb (String.eqb v "") then acc ++ [pfx +:+ v] else acc
  | None => acc
  end = acc ++ keyrule.key_of event (attr, kind).
Proof.
  intros ->. unfold keyrule.key_of, keyrule.present. simpl.
  destruct (Data event !! attr) as [[]|]; simpl; rewrite ?app_nil_r; try reflexivity.
  destruct (String.eqb s ""); simpl; rewrite ?app_nil_r, ?append_assoc; reflexivity.
Qed.

Lemma extract_rule (event : NormalizedEvent) :
  extractCorrelationKeys event = keyrule.keys event.
Proof.
  unfold extractCorrelationKeys, keyrule.keys, keyrule.attributes. cbv zeta.
  rewrite (extract_step event [] "source_ip" "ip" "ip:" eq_refl).
  rewrite (extract_step event _ "user" "user" "user:" eq_refl).
  rewrite (extract_step event _ "hostname" "host" "host:" eq_refl).
  rewrite (extract_step event _ "file_hash" "hash" "hash:" eq_refl).
  rewrite (extract_step event _ "domain" "domain" "domain:" eq_refl).
  simpl. rewrite app_nil_r, <- !app_assoc. reflexivity.
Qed.

(** C6. [extractCorrelationKeys] yields, in the order source IP, user,
    hostname, file hash, domain, one key [kind:value] for each of these
    attributes that holds a non-empty string, and nothing else: no key
    for an attribute that is absent, empty or not a string. *)
Theorem C6_extractCorrelationKeys_rule (event : NormalizedEvent) :
  extractCorrelationKeys event
  = flat_map (keyrule.key_of event)
      [ ("source_ip", "ip"); ("user", "user"); ("hostname", "host");
        ("file_hash", "hash"); ("domain", "domain") ]
  ∧ (∀ k, k ∈ extractCorrelationKeys event ↔
          ∃ attr kind v, (attr, kind) ∈ keyrule.attributes
                         ∧ Data event !! attr = Some (Str v)
                         ∧ String.eqb v "" = false
                         ∧ k = kind +:+ ":" +:+ v)
  ∧ (length (extractCorrelationKeys event) <= 5)%nat.
Proof.
  rewrite extract_rule. split; [reflexivity|]. split.
  - intros k. unfold keyrule.keys. rewrite list_elem_of_In, in_flat_map. split.
    + intros [[attr kind] [Hin Hk]]. exists attr, kind.
      unfold keyrule.key_of, keyrule.present in Hk. simpl in Hk.
      destruct (Data event !! attr) as [[]|] eqn:E; simpl in Hk; try tauto.
      destruct (String.eqb s "") eqn:Es; simpl in Hk; [tauto|].
      destruct Hk as [<-|[]]. exists s. rewrite list_elem_of_In. auto.
    + intros (attr & kind & v & Hin & Hd & Hv & ->). exists (attr, kind).
      rewrite list_elem_of_In in Hin. split; [exact Hin|].
      unfold keyrule.key_of, keyrule.present. simpl. rewrite Hd, Hv. now left.
  - unfold keyrule.keys, keyrule.attributes, keyrule.key_of. simpl.
    rewrite !length_app. simpl.
    repeat match goal with |- context [keyrule.present ?e ?a] =>
      destruct (keyrule.present e a) end; simpl; lia.
Qed.

End Keys.

(** ** The correlation table *)
Section Table.
Import normalization correlation shared.
Implicit Types (table : gmap string CorrelationGroup) (g : CorrelationGroup).
Implicit Types (e event : EventPtr) (c : Correlator) (order : list string).

Lemma matchesGroup_true (keys : list string) g :
  matchesGroup keys g = true ↔ ∃ k, k ∈ keys ∧ k ∈ Keys g.
Proof.
  unfold matchesGroup. rewrite existsb_exists. split.
  - intros (k & Hk & Hex). apply existsb_exists in Hex as (k' & Hk' & Heq).
    apply String.eqb_eq in Heq as <-. exists k. by rewrite !list_elem_of_In.
  - intros (k & Hk & Hg). exists k. rewrite <- list_elem_of_In. split; [done|].
    apply existsb_exists. exists k. rewrite <- list_elem_of_In. split; [done|].
    apply String.eqb_refl.
Qed.

Lemma first_match_Some order table keys id g :
  first_match order table keys = Some (id, g) ->
  table !! id = Some g ∧ matchesGroup keys g = true ∧ id ∈ order.
Proof.
  induction order as [|i rest IH]; simpl; [done|].
  destruct (table !! i) as [gi|] eqn:Ei.
  - destruct (matchesGroup keys gi) eqn:Em.
    + intros [= <- <-]. repeat split; [done..|]. apply list_elem_of_here.
    + intros H. destruct (IH H) as (? & ? & ?). repeat split; [done..|].
      by apply list_elem_of_further.
  - intros H. destruct (IH H) as (? & ? & ?). repeat split; [done..|].
    by apply list_elem_of_further.
Qed.

Lemma first_match_None order table keys :
  first_match order table keys = None ->
  ∀ id g, id ∈ order -> table !! id = Some g -> matchesGroup keys g = false.
Proof.
  induction order as [|i rest IH]; simpl; intros H id g Hin Hg.
  - by apply elem_of_nil in Hin.
  - apply elem_of_cons in Hin as [->|Hin].
    + rewrite Hg in H. by destruct (matchesGroup keys g).
    + destruct (table !! i) as [gi|]; [destruct (matchesGroup keys gi); [done|]|];
        by eapply IH.
Qed.

Lemma first_match_unmatched order table keys :
  (∀ id g, table !! id = Some g -> matchesGroup keys g = false) ->
  first_match order table keys = None.
Proof.
  intros Hno. induction order as [|i rest IH]; simpl; [done|].
  destruct (table !! i) as [gi|] eqn:Ei; [|done]. by rewrite (Hno i gi Ei).
Qed.

(** When one entry only matches, the scan finds it, whatever the order. *)
Lemma first_match_only order table keys id g :
  id ∈ order -> table !! id = Some g -> matchesGroup keys g = true ->
  (∀ id' g', table !! id' = Some g' -> matchesGroup keys g' = true -> id' = id) ->
  first_match order table keys = Some (id, g).
Proof.
  intros Hin Hg Hm Honly. induction order as [|i rest IH]; simpl.
  - by apply elem_of_nil in Hin.
  - destruct (table !! i) as [gi|] eqn:Ei.
    + destruct (matchesGroup keys gi) eqn:Em.
      * assert (i = id) as -> by eauto. congruence.
      * apply IH. apply elem_of_cons in Hin as [->|]; [congruence|done].
    + apply IH. apply elem_of_cons in Hin as [->|]; [congruence|done].
Qed.

Lemma iteration_elem table order id :
  iteration table order -> id ∈ order ↔ is_Some (table !! id).
Proof.
  unfold iteration. intros ->. rewrite list_elem_of_fmap. split.
  - intros ([i g] & -> & Hin). apply elem_of_map_to_list in Hin. by exists g.
  - intros [g Hg]. exists (id, g). split; [done|]. by apply elem_of_map_to_list.
Qed.

(** The two ways a call of [Correlate] ends. *)
Lemma Correlate_cases order clk c event :
  (∃ id g, correlations c !! id = Some g
           ∧ matchesGroup (keys_of event) g = true
           ∧ first_match order (correlations c) (keys_of event) = Some (id, g)
           ∧ Correlate order clk c event
             = (ID g, {| correlations := <[id := joined g event (now0 clk)]> (correlations c);
                         ttl := ttl c |}))
  ∨ (first_match order (correlations c) (keys_of event) = None
     ∧ Correlate order clk c event
       = (ID (created event clk),
          {| correlations := <[ID (created event clk) := created event clk]> (correlations c);
             ttl := ttl c |})).
Proof.
  unfold Correlate, keys_of.
  destruct (first_match order (correlations c) (extractCorrelationKeys (deref event)))
    as [[id g]|] eqn:E.
  - left. exists id, g. apply first_match_Some in E as E'. destruct E' as (? & ? & ?).
    by repeat split.
  - right. by split.
Qed.

Lemma Correlate_creates order clk c event :
  unmatched (correlations c) event ->
  Correlate order clk c event
  = (ID (created event clk),
     {| correlations := <[ID (created event clk) := created event clk]> (correlations c);
        ttl := ttl c |}).
Proof.
  intros Hno. destruct (Correlate_cases order clk c event) as [(id & g & _ & _ & E & _)|[_ ->]];
    [|done].
  by rewrite (first_match_unmatched order _ _ Hno) in E.
Qed.

Lemma Correlate_joins order clk c event id g :
  iteration (correlations c) order ->
  correlations c !! id = Some g ->
  matchesGroup (keys_of event) g = true ->
  (∀ id' g', correlations c !! id' = Some g' ->
             matchesGroup (keys_of event) g' = true -> id' = id) ->
  Correlate order clk c event
  = (ID g, {| correlations := <[id := joined g event (now0 clk)]> (correlations c);
              ttl := ttl c |}).
Proof.
  intros Hit Hg Hm Honly. unfold Correlate. fold (keys_of event).
  rewrite (first_match_only order _ _ id g); [done| |done..].
  apply (iteration_elem _ _ _ Hit). by exists g.
Qed.

Lemma share_key_matches a b g :
  share_key a b -> Keys g = keys_of b -> matchesGroup (keys_of a) g = true.
Proof.
  intros (k & Ha & Hb) HK. apply matchesGroup_true. exists k. by rewrite HK.
Qed.

Lemma share_key_sym a b : share_key a b -> share_key b a.
Proof. intros (k & ? & ?). by exists k. Qed.

End Table.

(** ** Which events end in one group *)
Section Grouping.
Import normalization correlation shared.
Implicit Types (g : CorrelationGroup) (e a b x : EventPtr) (c : Correlator).

(** An event that shares a key with the founder of the group at [id],
    and matches no other group, joins that group. *)
Lemma joins_founder order clk c e f id g :
  iteration (correlations c) order ->
  correlations c !! id = Some g -> Keys g = keys_of f -> share_key e f ->
  (∀ id' g', id' ≠ id -> correlations c !! id' = Some g' ->
             matchesGroup (keys_of e) g' = false) ->
  Correlate order clk c e
  = (ID g, {| correlations := <[id := joined g e (now0 clk)]> (correlations c);
              ttl := ttl c |}).
Proof.
  intros Hit Hg HK Hs Hno. apply Correlate_joins; [done..| |].
  - by eapply share_key_matches.
  - intros id' g' Hg' Hm. destruct (decide (id' = id)) as [|Hne]; [done|].
    rewrite (Hno id' g' Hne Hg') in Hm. discriminate.
Qed.

(** Processed one after the other on a table none of whose groups
    matches either, two events that share a key get one identifier. *)
Lemma pair_from_unmatched c a b o1 k1 o2 k2 :
  unmatched (correlations c) a -> unmatched (correlations c) b -> share_key a b ->
  iteration (correlations (snd (Correlate o1 k1 c a))) o2 ->
  Correlate o2 k2 (snd (Correlate o1 k1 c a)) b
  = (fst (Correlate o1 k1 c a),
     {| correlations :=
          <[ID (created a k1) := joined (created a k1) b (now0 k2)]>
            (<[ID (created a k1) := created a k1]> (correlations c));
        ttl := ttl c |}).
Proof.
  intros Ha Hb Hs. rewrite (Correlate_creates o1 k1 c a Ha). simpl. intros Hit.
  rewrite (joins_founder o2 k2 _ b a (ID (created a k1)) (created a k1)); simpl;
    [done|done| |done|by apply share_key_sym|].
  - apply lookup_insert_eq.
  - intros id' g' Hne. rewrite lookup_insert_ne; [|done]. apply Hb.
Qed.

(** C3 (amended). On a table none of whose groups matches either of
    them, two events with an identical correlation key that are
    correlated one right after the other, in either order, get the same
    group identifier, whatever order the table is ranged over. *)
Theorem C3_pair_same_group c a b :
  unmatched (correlations c) a -> unmatched (correlations c) b -> share_key a b ->
  (∀ o1 k1 o2 k2,
      iteration (correlations (snd (Correlate o1 k1 c a))) o2 ->
      fst (Correlate o2 k2 (snd (Correlate o1 k1 c a)) b) = fst (Correlate o1 k1 c a))
  ∧ (∀ o1 k1 o2 k2,
      iteration (correlations (snd (Correlate o1 k1 c b))) o2 ->
      fst (Correlate o2 k2 (snd (Correlate o1 k1 c b)) a) = fst (Correlate o1 k1 c b)).
Proof.
  intros Ha Hb Hs. split; intros o1 k1 o2 k2 Hit.
  - by rewrite (pair_from_unmatched c a b o1 k1 o2 k2).
  - by rewrite (pair_from_unmatched c b a o1 k1 o2 k2); [| | |apply share_key_sym|].
Qed.


End Grouping.

(** ** Reachable tables *)
Section Reachable.
Import normalization correlation shared groups.
Implicit Types (g : CorrelationGroup) (e event : EventPtr) (c : Correlator).
Implicit Types (calls : list call) (k : call).

Lemma run_snoc calls k : run (calls ++ [k]) = exec (run calls) k.
Proof. unfold run. by rewrite fold_left_app. Qed.

Lemma Correlate_ttl order clk c event : ttl (snd (Correlate order clk c event)) = ttl c.
Proof.
  by destruct (Correlate_cases order clk c event) as [(? & ? & _ & _ & _ & ->)|[_ ->]].
Qed.

Lemma exec_ttl c k : ttl (exec c k) = ttl c.
Proof. destruct k; simpl; [apply Correlate_ttl | done]. Qed.

Lemma run_ttl calls : ttl (run calls) = 1 * time.Hour.
Proof.
  induction calls as [|k calls IH] using rev_ind; [done|].
  by rewrite run_snoc, exec_ttl.
Qed.

(** *** The sweep *)
Lemma sweep_fold c now (order : list string) (acc : gmap string CorrelationGroup) id :
  fold_left
    (fun table i =>
       match correlations c !! i with
       | Some group => if expired c now group then delete i table else table
       | None => table
       end) order acc !! id
  = if decide (id ∈ order ∧ doomed c now id = true) then None else acc !! id.
Proof.
  revert acc. induction order as [|i rest IH]; intros acc; cbn [fold_left].
  - destruct (decide _) as [[H _]|]; [|done]. by apply elem_of_nil in H.
  - rewrite IH.
    assert (Hf : match correlations c !! i with
                 | Some group => if expired c now group then delete i acc else acc
                 | None => acc
                 end !! id
                 = if decide (i = id ∧ doomed c now id = true) then None else acc !! id).
    { clear IH. unfold doomed. destruct (decide (i = id)) as [->|Hne].
      - destruct (correlations c !! id) as [g|]; [destruct (expired c now g)|].
        + rewrite lookup_delete_eq.
          destruct (decide _) as [|Hn]; [done | exfalso; by apply Hn].
        + by destruct (decide _) as [[_ ?]|].
        + by destruct (decide _) as [[_ ?]|].
      - destruct (decide _) as [[? _]|]; [done|].
        destruct (correlations c !! i) as [gi|]; [destruct (expired c now gi)|];
          by rewrite ?lookup_delete_ne. }
    rewrite Hf.
    destruct (decide (id ∈ rest ∧ _)) as [[Hin HD]|Hn1];
      destruct (decide (id ∈ i :: rest ∧ _)) as [[Hin' HD']|Hn2];
      destruct (decide (i = id ∧ _)) as [[Hi HD'']|Hn3]; try done.
    + exfalso. apply Hn2. split; [by apply list_elem_of_further|done].
    + exfalso. apply Hn2. split; [by apply list_elem_of_further|done].
    + exfalso. apply elem_of_cons in Hin' as [->|?]; [by apply Hn3|by apply Hn1].
    + exfalso. apply Hn2. subst i. split; [apply list_elem_of_here|done].
Qed.

Lemma sweep_lookup order now c id :
  correlations (sweep order now c) !! id
  = if decide (id ∈ order ∧ doomed c now id = true) then None else correlations c !! id.
Proof. apply sweep_fold. Qed.

Lemma sweep_keeps order now c id g :
  correlations (sweep order now c) !! id = Some g -> correlations c !! id = Some g.
Proof. rewrite sweep_lookup. by case_decide. Qed.

(** The saturation of [Sub] does not show in the comparison with a TTL
    that a duration can hold. *)
Lemma expired_iff c now g :
  time.minDuration <= ttl c < time.maxDuration ->
  expired c now g = true ↔ older_than_ttl c now g.
Proof.
  unfold expired, older_than_ttl, time.Sub, time.minDuration, time.maxDuration.
  intros Httl.
  destruct (Z.gtb_spec (time.nanos now - time.nanos (UpdatedAt g)) (2 ^ 63 - 1));
    [|destruct (Z.ltb_spec (time.nanos now - time.nanos (UpdatedAt g)) (- 2 ^ 63))];
    rewrite Z.gtb_ltb, Z.ltb_lt; lia.
Qed.

(** C8. A sweep at the reading [now] removes exactly the groups last
    updated more than the TTL of one hour before [now]: each of them is
    gone from the table and from [GetActiveGroups], each other group is
    kept as it was, and nothing is added. *)
Theorem C8_sweep_removes_exactly_the_expired calls order now :
  let c := run calls in
  let c' := sweep order now c in
  iteration (correlations c) order ->
  ttl c = 3600 * 10 ^ 9
  ∧ (∀ id g, correlations c !! id = Some g -> older_than_ttl c now g ->
             GetGroup c' id = None)
  ∧ (∀ id g, correlations c !! id = Some g -> ¬ older_than_ttl c now g ->
             GetGroup c' id = Some g)
  ∧ (∀ id, correlations c !! id = None -> GetGroup c' id = None)
  ∧ (∀ order' g, iteration (correlations c') order' ->
                 g ∈ GetActiveGroups order' c' ↔
                 ∃ id, correlations c !! id = Some g ∧ ¬ older_than_ttl c now g).
Proof.
  intros c c' Hit.
  assert (Httl : ttl c = 3600 * 10 ^ 9) by (unfold c; by rewrite run_ttl).
  assert (Hrange : time.minDuration <= ttl c < time.maxDuration).
  { rewrite Httl. unfold time.minDuration, time.maxDuration. lia. }
  assert (Hgone : ∀ id g, correlations c !! id = Some g -> older_than_ttl c now g ->
                          correlations c' !! id = None).
  { intros id g Hg Hold. unfold c'. rewrite sweep_lookup.
    destruct (decide _) as [|Hn]; [done|]. exfalso. apply Hn. split.
    - apply (iteration_elem _ _ _ Hit). by exists g.
    - unfold doomed. rewrite Hg. by apply expired_iff. }
  assert (Hkept : ∀ id g, correlations c !! id = Some g -> ¬ older_than_ttl c now g ->
                          correlations c' !! id = Some g).
  { intros id g Hg Hnew. unfold c'. rewrite sweep_lookup.
    destruct (decide _) as [[_ Hd]|]; [|done]. exfalso. apply Hnew.
    unfold doomed in Hd. rewrite Hg in Hd. by apply expired_iff. }
  repeat split; try done.
  - intros id Hnone. unfold GetGroup, c'. rewrite sweep_lookup, Hnone.
    by destruct (decide _).
  - unfold GetActiveGroups. rewrite list_elem_of_omap. intros (id & _ & Hg').
    exists id. pose proof (sweep_keeps _ _ _ _ _ Hg') as Hg. split; [done|].
    intros Hold. by rewrite (Hgone id g Hg Hold) in Hg'.
  - intros (id & Hg & Hnew). unfold GetActiveGroups. rewrite list_elem_of_omap.
    exists id. split; [|by apply Hkept].
    apply (iteration_elem _ _ _ H). exists g. by apply Hkept.
Qed.




End Reachable.

(** ** Each event in one group *)
Section Membership.
Import normalization correlation shared membership.
Implicit Types (g : CorrelationGroup) (e event : EventPtr) (c : Correlator).
Implicit Types (calls : list call) (k : call).

Lemma submitted_snoc_correlate calls order clk event :
  submitted (calls ++ [CallCorrelate order clk event]) = submitted calls ++ [event].
Proof. unfold submitted. by rewrite flat_map_app. Qed.

Lemma submitted_snoc_sweep calls order now :
  submitted (calls ++ [CallSweep order now]) = submitted calls.
Proof. unfold submitted. rewrite flat_map_app. simpl. by rewrite app_nil_r. Qed.

Lemma known_snoc calls order clk event (x : nat) :
  x ∈ addr <$> submitted calls ->
  x ∈ addr <$> submitted (calls ++ [CallCorrelate order clk event]).
Proof. rewrite submitted_snoc_correlate, fmap_app, elem_of_app. by left. Qed.

Lemma fresh_snoc calls order clk event :
  addr event ∈ addr <$> submitted (calls ++ [CallCorrelate order clk event]).
Proof.
  rewrite submitted_snoc_correlate, fmap_app, elem_of_app. right.
  simpl. by apply list_elem_of_singleton.
Qed.

(** Putting at [id] a group that holds the members of the group that
    was there, if any, and the fresh event at the end keeps the table
    tidy. *)
Lemma tidy_insert calls table order clk event id g' (old : list EventPtr) :
  tidy calls table ->
  addr event ∉ addr <$> submitted calls ->
  ID g' = id -> Events g' = old ++ [event] ->
  (∀ e, e ∈ old -> ∃ g, table !! id = Some g ∧ e ∈ Events g) ->
  NoDup (addr <$> old) ->
  tidy (calls ++ [CallCorrelate order clk event]) (<[id := g']> table).
Proof.
  intros [Hid Hknown Honce Hapart] Hfresh HID HE Hold Hnd.
  assert (Hold_known : ∀ e, e ∈ old -> addr e ∈ addr <$> submitted calls).
  { intros e He. destruct (Hold e He) as (g & Hg & Hin). by eapply Hknown. }
  split.
  - intros i g. rewrite lookup_insert. case_decide; [|by apply Hid].
    intros [= <-]. by subst.
  - intros i g e. rewrite lookup_insert. case_decide.
    + intros [= <-]. rewrite HE, elem_of_app.
      intros [He|He%list_elem_of_singleton];
        [by apply known_snoc, Hold_known | subst e; apply fresh_snoc].
    + intros Hg He. eapply known_snoc, Hknown; done.
  - intros i g. rewrite lookup_insert. case_decide; [|by apply Honce].
    intros [= <-]. rewrite HE, fmap_app. apply NoDup_app. repeat split; [done| |].
    + intros x Hx. simpl. rewrite list_elem_of_singleton. intros ->.
      apply list_elem_of_fmap in Hx as (e & Heq & He). apply Hfresh.
      rewrite Heq. by apply Hold_known.
    + apply NoDup_singleton.
  - assert (Hside : ∀ i g e1 e2, i ≠ id -> table !! i = Some g -> e1 ∈ old ++ [event] ->
                                e2 ∈ Events g -> addr e1 = addr e2 -> False).
    { intros i g e1 e2 Hne Hg He1 He2 Heq.
      apply elem_of_app in He1 as [He1|He1].
      - destruct (Hold e1 He1) as (g0 & Hg0 & Hin0).
        apply Hne. symmetry. by eapply (Hapart id g0 i g e1 e2).
      - apply list_elem_of_singleton in He1 as ->. apply Hfresh. rewrite Heq.
        by eapply Hknown. }
    intros id1 g1 id2 g2 e1 e2. rewrite !lookup_insert.
    destruct (decide (id = id1)) as [<-|Hn1], (decide (id = id2)) as [<-|Hn2]; [done|..].
    + intros [= <-] Hg2 He1 He2 Heq. exfalso. rewrite HE in He1.
      by eapply (Hside id2 g2 e1 e2).
    + intros Hg1 [= <-] He1 He2 Heq. exfalso. rewrite HE in He2.
      by eapply (Hside id1 g1 e2 e1).
    + apply Hapart.
Qed.

Lemma tidy_exec calls k :
  tidy calls (correlations (run calls)) ->
  NoDup (addr <$> submitted (calls ++ [k])) ->
  tidy (calls ++ [k]) (correlations (run (calls ++ [k]))).
Proof.
  intros Ht Hnd. rewrite run_snoc. destruct k as [order clk event|order now]; simpl.
  - assert (Hfresh : addr event ∉ addr <$> submitted calls).
    { rewrite submitted_snoc_correlate, fmap_app in Hnd.
      apply NoDup_app in Hnd as (_ & Hd & _). intros Hin.
      apply (Hd _ Hin). simpl. by apply list_elem_of_singleton. }
    destruct (Correlate_cases order clk (run calls) event)
      as [(id & g & Hg & _ & _ & ->)|[_ ->]]; simpl.
    + apply (tidy_insert _ _ _ _ _ _ _ (Events g)); try done.
      * simpl. by apply (tidy_id _ _ Ht).
      * intros e He. by exists g.
      * by apply (tidy_once _ _ Ht id).
    + apply (tidy_insert _ _ _ _ _ _ _ []); try done.
      * intros e He. by apply elem_of_nil in He.
      * apply NoDup_nil. done.
  - destruct Ht as [Hid Hknown Honce Hapart]. split.
    + intros id g Hg. apply sweep_keeps in Hg. by apply Hid.
    + intros id g e Hg He. apply sweep_keeps in Hg. rewrite submitted_snoc_sweep.
      by eapply Hknown.
    + intros id g Hg. apply sweep_keeps in Hg. by eapply Honce.
    + intros id1 g1 id2 g2 e1 e2 Hg1 Hg2. apply sweep_keeps in Hg1, Hg2.
      by eapply Hapart.
Qed.

Lemma tidy_run calls :
  NoDup (addr <$> submitted calls) -> tidy calls (correlations (run calls)).
Proof.
  induction calls as [|k calls IH] using rev_ind; intros Hnd.
  - split; intros *; unfold run; simpl; rewrite ?lookup_empty; done.
  - apply tidy_exec; [|done]. apply IH.
    unfold submitted in Hnd. rewrite flat_map_app, fmap_app in Hnd.
    by apply NoDup_app in Hnd as (? & _).
Qed.

(** *** The first match *)
Lemma first_in_first_match order table keys id g :
  first_in order table keys id g -> first_match order table keys = Some (id, g).
Proof.
  intros (before & after & -> & Hg & Hm & Hno).
  induction before as [|j before IH]; simpl.
  - by rewrite Hg, Hm.
  - destruct (table !! j) as [gj|] eqn:Ej.
    + rewrite (Hno j gj); [|apply list_elem_of_here|done].
      apply IH. intros j' gj' Hin. apply Hno. by apply list_elem_of_further.
    + apply IH. intros j' gj' Hin. apply Hno. by apply list_elem_of_further.
Qed.

Lemma first_match_first_in order table keys id g :
  first_match order table keys = Some (id, g) -> first_in order table keys id g.
Proof.
  induction order as [|i rest IH]; simpl; [done|].
  destruct (table !! i) as [gi|] eqn:Ei.
  - destruct (matchesGroup keys gi) eqn:Em.
    + intros [= <- <-]. exists [], rest. repeat split; [done..|].
      intros j gj Hin. by apply elem_of_nil in Hin.
    + intros H. destruct (IH H) as (before & after & -> & Hg & Hm & Hno).
      exists (i :: before), after. repeat split; [done..|].
      intros j gj [->|Hin]%elem_of_cons Hj; [congruence|by eapply Hno].
  - intros H. destruct (IH H) as (before & after & -> & Hg & Hm & Hno).
    exists (i :: before), after. repeat split; [done..|].
    intros j gj [->|Hin]%elem_of_cons Hj; [congruence|by eapply Hno].
Qed.

Lemma none_in_first_match order table keys :
  none_in order table keys ↔ first_match order table keys = None.
Proof.
  split; [|intros H j gj; by apply first_match_None].
  intros Hno. induction order as [|i rest IH]; simpl; [done|].
  assert (Hrest : none_in rest table keys).
  { intros j gj Hin. apply Hno. by apply list_elem_of_further. }
  destruct (table !! i) as [gi|] eqn:Ei; [|by apply IH].
  rewrite (Hno i gi); [by apply IH|apply list_elem_of_here|done].
Qed.

(** *** What a call leaves of the groups *)
Lemma Correlate_keeps order clk c event id g :
  ¬ collides order clk c event ->
  correlations c !! id = Some g ->
  ∃ g', correlations (snd (Correlate order clk c event)) !! id = Some g'
        ∧ Events g `prefix_of` Events g'.
Proof.
  intros Hfree Hg.
  destruct (Correlate_cases order clk c event)
    as [(i & gi & Hgi & _ & _ & ->)|[Hnone ->]]; simpl; rewrite lookup_insert;
    case_decide as Hid.
  - subst i. rewrite Hg in Hgi. injection Hgi as <-. eexists. split; [done|].
    simpl. by apply prefix_app_r.
  - by exists g.
  - exfalso. apply Hfree. split; [by apply none_in_first_match|].
    simpl in Hid. rewrite Hid. by exists g.
  - by exists g.
Qed.

Lemma sweep_spares order now c id g :
  correlations c !! id = Some g -> expired c now g = false ->
  correlations (sweep order now c) !! id = Some g.
Proof.
  intros Hg He. rewrite sweep_lookup. destruct (decide _) as [[_ Hd]|]; [|done].
  unfold groups.doomed in Hd. rewrite Hg in Hd. congruence.
Qed.

Lemma held_members table e : held table e -> addr e ∈ members table.
Proof.
  intros (id & g & Hg & He). unfold members.
  apply list_elem_of_fmap. exists e. split; [done|].
  apply list_elem_of_In, in_flat_map. exists g. split; [|by apply list_elem_of_In].
  apply list_elem_of_In, list_elem_of_fmap. exists (id, g). split; [done|].
  by apply elem_of_map_to_list.
Qed.

(** C7 (amended). While every event is submitted once, as [processEvent]
    does with the event it has just normalized: in every reachable state
    of the table no event is twice in a group and no event is in two
    groups.  A call of [Correlate] attaches its event to one group, the
    one whose identifier it returns: the first group the range visits
    that shares a key with it, where the search stops and only that
    group is written, or a new group when none of the visited groups
    does.  Membership lasts as long as the group: a call of [Correlate]
    that joins a group or creates one under an identifier not in the
    table keeps every group, its members unchanged or extended at the
    end; a sweep deletes the groups it visits that have expired, each as
    a whole, keeps every group that has not expired as it was, and what
    it leaves of the table is unchanged. *)
Theorem C7_each_event_in_one_group calls :
  NoDup (addr <$> submitted calls) ->
  let table := correlations (run calls) in
  (∀ id g, table !! id = Some g -> NoDup (addr <$> Events g))
  ∧ (∀ id1 g1 id2 g2 e1 e2,
        table !! id1 = Some g1 -> table !! id2 = Some g2 ->
        e1 ∈ Events g1 -> e2 ∈ Events g2 -> addr e1 = addr e2 -> id1 = id2)
  ∧ (∀ order clk event,
        addr event ∉ addr <$> submitted calls ->
        let r := Correlate order clk (run calls) event in
        ((∃ id g, first_in order table (keys_of event) id g)
         ∨ none_in order table (keys_of event))
        ∧ (∀ id g, first_in order table (keys_of event) id g ->
                   fst r = id
                   ∧ correlations (snd r) = <[id := joined g event (now0 clk)]> table)
        ∧ (none_in order table (keys_of event) ->
             fst r = generateCorrelationID (keys_of event) (now0 clk)
             ∧ correlations (snd r) = <[fst r := created event clk]> table)
        ∧ ∃ g, correlations (snd r) !! fst r = Some g
               ∧ ID g = fst r
               ∧ event ∈ Events g
               ∧ NoDup (addr <$> Events g)
               ∧ ∀ id' g', correlations (snd r) !! id' = Some g' ->
                           event ∈ Events g' -> id' = fst r)
  ∧ (∀ order clk event id g,
        ¬ collides order clk (run calls) event ->
        table !! id = Some g ->
        (∃ g', correlations (snd (Correlate order clk (run calls) event)) !! id = Some g'
               ∧ Events g `prefix_of` Events g')
        ∧ ∀ e, held table e ->
               held (correlations (snd (Correlate order clk (run calls) event))) e)
  ∧ (∀ order now id g,
        table !! id = Some g ->
        (expired (run calls) now g = false ->
         correlations (sweep order now (run calls)) !! id = Some g)
        ∧ (expired (run calls) now g = true -> id ∈ order ->
           correlations (sweep order now (run calls)) !! id = None)
        ∧ (∀ g', correlations (sweep order now (run calls)) !! id = Some g' -> g' = g)).
Proof.
  intros Hnd table. pose proof (tidy_run calls Hnd) as Ht. fold table in Ht.
  split; [apply (tidy_once _ _ Ht)|]. split; [apply (tidy_apart _ _ Ht)|].
  split; [|split].
  - intros order clk event Hfresh r.
    assert (Hnd' : NoDup (addr <$> submitted (calls ++ [CallCorrelate order clk event]))).
    { rewrite submitted_snoc_correlate, fmap_app. apply NoDup_app.
      repeat split; [done| |apply NoDup_singleton].
      intros x Hx. simpl. rewrite list_elem_of_singleton. by intros ->. }
    pose proof (tidy_exec calls _ Ht Hnd') as Ht'. rewrite run_snoc in Ht'. simpl in Ht'.
    fold r in Ht'.
    assert (Hjoin : ∀ id g, first_in order table (keys_of event) id g ->
                            fst r = id
                            ∧ correlations (snd r)
                              = <[id := joined g event (now0 clk)]> table).
    { intros id g Hfirst. apply first_in_first_match in Hfirst as Hfm.
      unfold r, Correlate. fold (keys_of event). fold table. rewrite Hfm. simpl.
      split; [|done]. destruct Hfirst as (_ & _ & _ & Hg & _).
      by apply (tidy_id _ _ Ht). }
    assert (Hnew : none_in order table (keys_of event) ->
                   fst r = generateCorrelationID (keys_of event) (now0 clk)
                   ∧ correlations (snd r) = <[fst r := created event clk]> table).
    { intros Hnone. apply none_in_first_match in Hnone.
      unfold r, Correlate. fold (keys_of event). fold table. by rewrite Hnone. }
    assert (Hwhich : (∃ id g, first_in order table (keys_of event) id g)
                     ∨ none_in order table (keys_of event)).
    { destruct (first_match order table (keys_of event)) as [[id g]|] eqn:Hfm.
      - left. exists id, g. by apply first_match_first_in.
      - right. by apply none_in_first_match. }
    split; [done|]. split; [done|]. split; [done|].
    assert (Hin : ∃ g, correlations (snd r) !! fst r = Some g ∧ event ∈ Events g).
    { destruct Hwhich as [(id & g & Hfirst)|Hnone].
      - destruct (Hjoin id g Hfirst) as [-> ->]. rewrite lookup_insert_eq.
        eexists. split; [done|]. simpl. apply elem_of_app. right.
        by apply list_elem_of_singleton.
      - destruct (Hnew Hnone) as [_ ->]. rewrite lookup_insert_eq.
        eexists. split; [done|]. simpl. by apply list_elem_of_singleton. }
    destruct Hin as (g & Hg & He). exists g. repeat split; [done| |done| |].
    + eapply (tidy_id _ _ Ht'); exact Hg.
    + eapply (tidy_once _ _ Ht'); exact Hg.
    + intros id' g' Hg' He'.
      eapply (tidy_apart _ _ Ht'); [exact Hg'|exact Hg|exact He'|exact He|done].
  - intros order clk event id g Hfree Hg. split; [by apply Correlate_keeps|].
    intros e (i & gi & Hgi & He).
    destruct (Correlate_keeps order clk (run calls) event i gi Hfree Hgi)
      as (g' & Hg' & Hpre).
    exists i, g'. split; [done|]. destruct Hpre as [rest ->].
    apply elem_of_app. by left.
  - intros order now id g Hg. split; [by apply sweep_spares|]. split.
    + intros He Hin. rewrite sweep_lookup. destruct (decide _) as [|Hn]; [done|].
      exfalso. apply Hn. split; [done|]. unfold groups.doomed. fold table. by rewrite Hg.
    + intros g' Hg'. apply sweep_keeps in Hg'. fold table in Hg'. congruence.
Qed.

End Membership.

(** ** The scenarios, evaluated *)
Section Scenarios.
Import normalization correlation shared groups membership sample scenario.

Lemma unmatched_empty (e : EventPtr) : unmatched (correlations NewCorrelator) e.
Proof. intros id g. unfold NewCorrelator. simpl. by rewrite lookup_empty. Qed.

Lemma share_ip_both : share_key e_ip e_both.
Proof. exists "ip:10.0.0.5". split; apply list_elem_of_In; vm_compute; auto. Qed.


Lemma share_host_user_bob : share_key e_host_user e_bob.
Proof. exists "user:bob". split; apply list_elem_of_In; vm_compute; auto. Qed.



(** C3, refuted as stated: [e_host_user] joins the group of [e_host]
    through the host name; [e_bob], which shares [user:bob] with it and
    comes right after, matches no key of that group and gets another
    identifier. *)
Lemma C3_counterexample :
  share_key e_host_user e_bob
  ∧ iteration (correlations (snd host_1)) [fst host_1]
  ∧ iteration (correlations (snd host_2)) [fst host_1]
  ∧ fst host_2 = "295cd58a21d8e32c"
  ∧ fst host_3 = "5673179047af355b".
Proof.
  split; [apply share_host_user_bob|].
  unfold iteration. vm_compute. repeat split; reflexivity.
Qed.

Lemma C3_witness :
  fst (Correlate [fst ip_1] (still t2) (snd (Correlate [] (still t1) NewCorrelator e_ip)) e_both)
  = fst (Correlate [] (still t1) NewCorrelator e_ip).
Proof.
  apply (proj1 (C3_pair_same_group NewCorrelator e_ip e_both
                  (unmatched_empty e_ip) (unmatched_empty e_both) share_ip_both)).
  unfold iteration. vm_compute. reflexivity.
Defined.


(** C7, refuted as stated, on three inputs.  The event [e_ip] submitted
    a second time matches its own group and is appended again: it is
    twice in the member list.  The sweep seventy minutes after the start
    deletes the group of [e_ip], last updated in the first second: the
    event is then in no group.  And two events without keys, correlated
    at one reading of the clock with no sweep in between, get the same
    identifier: the group of the second takes the place of the group of
    the first, whose event is then in no group. *)
Lemma C7_counterexample :
  (iteration (correlations (snd ip_1)) [fst ip_1]
   ∧ (map addr ∘ Events) <$> (correlations (snd ip_again) !! fst ip_1)
     = Some [1%nat; 1%nat])
  ∧ (iteration (correlations (run old_and_new)) sweep_order
     ∧ held (correlations (run old_and_new)) e_ip
     ∧ ¬ held (correlations (sweep sweep_order sweep_time (run old_and_new))) e_ip)
  ∧ (addr plain_1 ≠ addr plain_2
     ∧ iteration (correlations (snd tick_1)) [fst tick_1]
     ∧ held (correlations (snd tick_1)) plain_1
     ∧ held (correlations (snd tick_2)) plain_2
     ∧ ¬ held (correlations (snd tick_2)) plain_1).
Proof.
  assert (Hout : ∀ table e, bool_decide (addr e ∈ members table) = false -> ¬ held table e).
  { intros table e Hb Hh. apply held_members in Hh.
    apply bool_decide_eq_false in Hb. contradiction. }
  split; [|split].
  - unfold iteration. vm_compute. split; reflexivity.
  - split; [unfold iteration; vm_compute; reflexivity|]. split.
    + exists (fst ip_1), (created e_ip (still t1)).
      split; [vm_compute; reflexivity|]. apply list_elem_of_here.
    + apply Hout. vm_compute. reflexivity.
  - split; [vm_compute; discriminate|].
    split; [unfold iteration; vm_compute; reflexivity|]. split; [|split].
    + exists (fst tick_1), (created plain_1 (still t1)).
      split; [vm_compute; reflexivity|]. apply list_elem_of_here.
    + exists (fst tick_2), (created plain_2 (still t1)).
      split; [vm_compute; reflexivity|]. apply list_elem_of_here.
    + apply Hout. vm_compute. reflexivity.
Qed.

Lemma three_calls_fresh : NoDup (addr <$> submitted three_calls).
Proof. apply (bool_decide_unpack _). vm_compute. exact I. Qed.

Lemma C7_witness :
  NoDup (addr <$> submitted three_calls)
  ∧ ∀ id g, correlations (run three_calls) !! id = Some g -> NoDup (addr <$> Events g).
Proof.
  split; [exact three_calls_fresh|].
  exact (proj1 (C7_each_event_in_one_group three_calls three_calls_fresh)).
Defined.

Lemma sweep_order_iteration : iteration (correlations (run old_and_new)) sweep_order.
Proof. unfold iteration. vm_compute. reflexivity. Qed.

Lemma C8_witness :
  GetGroup (sweep sweep_order sweep_time (run old_and_new)) (fst ip_1) = None
  ∧ is_Some (GetGroup (sweep sweep_order sweep_time (run old_and_new))
               (fst (Correlate [fst ip_1] (still late) (snd ip_1) e_bob))).
Proof.
  destruct (C8_sweep_removes_exactly_the_expired old_and_new sweep_order sweep_time
              sweep_order_iteration) as (_ & Hgone & Hkept & _).
  split.
  - eapply Hgone; [vm_compute; reflexivity | unfold older_than_ttl; vm_compute; reflexivity].
  - eexists. eapply Hkept; [vm_compute; reflexivity |].
    unfold older_than_ttl. vm_compute. discriminate.
Defined.

(** C9, at the failing input: two events without keys, correlated at
    one reading of the clock, get the same identifier, and the group of
    the second takes the place of the group of the first. *)
Theorem C9_same_reading_same_identifier :
  keys_of plain_1 = [] ∧ keys_of plain_2 = []
  ∧ iteration (correlations (snd tick_1)) [fst tick_1]
  ∧ fst tick_1 = "02eb892f643f5791"
  ∧ fst tick_2 = "02eb892f643f5791"
  ∧ (map_to_list (correlations (snd tick_2))).*1 = ["02eb892f643f5791"]
  ∧ (map addr ∘ Events) <$> (correlations (snd tick_2) !! "02eb892f643f5791")
    = Some [8%nat].
Proof. unfold iteration. vm_compute. repeat split; reflexivity. Qed.

End Scenarios.

(** ** The task of one event *)
Section Pipeline.
Import normalization hub scenario.
#[local] Set Warnings "-inexact-float".

Variable json_Unmarshal : string -> ai.RiskAnalysis + string.
Variable buildRawEventPrompt : ingestion.RawEvent -> string.

Local Abbreviation processEvent := (hub.processEvent json_Unmarshal buildRawEventPrompt).
Local Abbreviation AnalyzeRawEvent := (ai.AnalyzeRawEvent json_Unmarshal buildRawEventPrompt).

(** C10. When [Normalize] returns an error, [processEvent] returns
    right there: it has built no record and sent none, the correlation
    table and the output queue are as they were, and the error is
    logged; nothing in the task runs the event again. *)
Theorem C10_normalization_failure_drops (rt : Runtime) (p : Pipeline)
        (raw : ingestion.RawEvent) (err : string) :
  Normalize (normalizer p) raw = inr err ->
  snd (processEvent rt p raw) = Dropped
  ∧ record_of (snd (processEvent rt p raw)) = None
  ∧ correlator (fst (processEvent rt p raw)) = correlator p
  ∧ outputChan (fst (processEvent rt p raw)) = outputChan p
  ∧ ∃ logs, logger (fst (processEvent rt p raw))
            = logger p ++ logs ++ [(Error, "Normalization failed")].
Proof.
  intros Hn. unfold hub.processEvent.
  destruct (AnalyzeRawEvent (aiAnalyzer p) raw) as [[a|e] logs1]; rewrite Hn; simpl;
    repeat split; eauto.
Qed.

(** The record the task builds once the event is normalized. *)
Lemma processEvent_record (rt : Runtime) (p : Pipeline) (raw : ingestion.RawEvent)
      (event : NormalizedEvent) :
  Normalize (normalizer p) raw = inl event ->
  ∃ pe, record_of (snd (processEvent rt p raw)) = Some pe
        ∧ AIAnalysis pe
          = match fst (AnalyzeRawEvent (aiAnalyzer p) raw) with
            | inl a => Some a
            | inr _ => None
            end
        ∧ (RiskScore pe, RiskLevel pe) = calculateRisk (AIAnalysis pe) event
        ∧ CorrelationID pe
          = fst (correlation.Correlate (order rt) (clk rt) (correlator p)
                   {| addr := fresh rt; deref := event |}).
Proof.
  intros Hn. unfold hub.processEvent.
  destruct (AnalyzeRawEvent (aiAnalyzer p) raw) as [[a|e] logs1]; rewrite Hn; cbn [fst];
    destruct (enrichment.Enrich (enricher p) event) as [enrichments logs3];
    destruct (correlation.Correlate _ _ _ _) as [cid c'].
  - destruct (calculateRisk (Some a) event) as [score level] eqn:Er.
    destruct (_ <? _)%nat; cbn [record_of snd fst]; eexists; (split; [reflexivity|]);
      cbn [AIAnalysis RiskScore RiskLevel CorrelationID]; rewrite Er; auto.
  - destruct (calculateRisk None event) as [score level] eqn:Er.
    destruct (_ <? _)%nat; cbn [record_of snd fst]; eexists; (split; [reflexivity|]);
      cbn [AIAnalysis RiskScore RiskLevel CorrelationID]; rewrite Er; auto.
Qed.

(** C5 (amended). Of an event that is normalized: when the analysis
    call fails, the record carries no judgment, score 0.0 and level
    "unknown"; when the answer cannot be parsed, [AnalyzeRawEvent]
    returns its fallback judgment without an error, and the record
    carries that judgment, score 0.5 and level "medium". *)
Theorem C5_unknown_when_call_fails_fallback_when_unparsed
        (rt : Runtime) (p : Pipeline) (raw : ingestion.RawEvent) (event : NormalizedEvent) :
  Normalize (normalizer p) raw = inl event ->
  (∀ err, ai.Analyze (ai.provider (aiAnalyzer p)) (buildRawEventPrompt raw) = inr err ->
          ∃ pe, record_of (snd (processEvent rt p raw)) = Some pe
                ∧ AIAnalysis pe = None
                ∧ RiskScore pe = 0.0%float ∧ RiskLevel pe = "unknown")
  ∧ (∀ response err,
        ai.Analyze (ai.provider (aiAnalyzer p)) (buildRawEventPrompt raw) = inl response ->
        json_Unmarshal (ai.Content response) = inr err ->
        ∃ pe, record_of (snd (processEvent rt p raw)) = Some pe
              ∧ AIAnalysis pe = Some (ai.fallbackAnalysis raw)
              ∧ RiskScore pe = 0.5%float ∧ RiskLevel pe = "medium"
              ∧ ai.Confidence (ai.fallbackAnalysis raw) = 0.0%float
              ∧ ai.RawContext (ai.fallbackAnalysis raw)
                = "AI analysis unavailable - fallback applied").
Proof.
  intros Hn. destruct (processEvent_record rt p raw event Hn) as (pe & Hpe & Hai & Hrisk & _).
  split.
  - intros err Herr. exists pe. split; [done|].
    unfold ai.AnalyzeRawEvent in Hai. rewrite Herr in Hai. simpl in Hai.
    rewrite Hai in Hrisk. simpl in Hrisk. injection Hrisk as -> ->. done.
  - intros response err Hresp Herr. exists pe. split; [done|].
    unfold ai.AnalyzeRawEvent, ai.parseRiskAnalysis in Hai.
    rewrite Hresp, Herr in Hai. simpl in Hai.
    rewrite Hai in Hrisk. simpl in Hrisk. injection Hrisk as -> ->. done.
Qed.

End Pipeline.

Section PipelineScenarios.
Import normalization hub scenario.
#[local] Set Warnings "-inexact-float".

(** C5, refuted as stated: the provider answers with text that is not
    JSON; the record is delivered with score 0.5 and level "medium". *)
Lemma C5_counterexample :
  ai.Analyze chatty (no_prompt (sample.raw "evt-1"))
  = inl {| ai.Content := "I cannot assess this event."; ai.Model := "m";
           ai.InputTokens := 10; ai.OutputTokens := 6 |}
  ∧ reject_text "I cannot assess this event."
    = inr "invalid character 'I' looking for beginning of value"
  ∧ RiskLevel <$> record_of (snd (processEvent reject_text no_prompt runtime
                                    (pipeline "ocsf" chatty) (sample.raw "evt-1")))
    = Some "medium"
  ∧ RiskScore <$> record_of (snd (processEvent reject_text no_prompt runtime
                                    (pipeline "ocsf" chatty) (sample.raw "evt-1")))
    = Some 0.5%float
  ∧ length (outputChan (fst (processEvent reject_text no_prompt runtime
                               (pipeline "ocsf" chatty) (sample.raw "evt-1")))) = 1%nat.
Proof. vm_compute. repeat split; reflexivity. Qed.

Lemma C5_witness :
  ∃ pe, record_of (snd (processEvent reject_text no_prompt runtime
                          (pipeline "ocsf" refusing) (sample.raw "evt-1"))) = Some pe
        ∧ AIAnalysis pe = None
        ∧ RiskScore pe = 0.0%float ∧ RiskLevel pe = "unknown".
Proof.
  apply (proj1 (C5_unknown_when_call_fails_fallback_when_unparsed
                  reject_text no_prompt runtime (pipeline "ocsf" refusing)
                  (sample.raw "evt-1") (normalizeToOCSF (sample.raw "evt-1")) eq_refl)
           "status 503" eq_refl).
Defined.

Lemma C10_witness :
  Normalize "stix" (sample.raw "evt-1") = inr "unsupported schema: stix"
  ∧ snd (processEvent reject_text no_prompt runtime (pipeline "stix" chatty)
           (sample.raw "evt-1")) = Dropped
  ∧ correlator (fst (processEvent reject_text no_prompt runtime (pipeline "stix" chatty)
                       (sample.raw "evt-1"))) = correlation.NewCorrelator.
Proof.
  split; [reflexivity|].
  destruct (C10_normalization_failure_drops reject_text no_prompt runtime
              (pipeline "stix" chatty) (sample.raw "evt-1") "unsupported schema: stix"
              eq_refl) as (Hd & _ & Hc & _).
  split; [exact Hd | exact Hc].
Defined.

End PipelineScenarios.

(** * More of the correlator *)
Section MoreTable.
Import normalization correlation shared groups sample scenario scenario2 format.
Implicit Types (g : CorrelationGroup) (e event : EventPtr) (c : Correlator).
Implicit Types (calls : list call) (order : list string).

Lemma matchesGroup_no_keys g : matchesGroup [] g = false.
Proof. reflexivity. Qed.

Lemma matchesGroup_keyless (keys : list string) g : Keys g = [] -> matchesGroup keys g = false.
Proof.
  intros HK. unfold matchesGroup. rewrite HK.
  induction keys as [|k keys IH]; [reflexivity | exact IH].
Qed.

(** X1. An event without correlation keys matches nothing: whatever the
    table holds and in whatever order it is ranged over, [Correlate]
    creates a group for it under the identifier made from the clock text
    alone, and no later event matches that group. *)
Theorem X1_keyless_event_gets_closed_group order clk c e :
  keys_of e = [] ->
  Correlate order clk c e
  = (generateCorrelationID [] (now0 clk),
     {| correlations :=
          <[generateCorrelationID [] (now0 clk) := created e clk]> (correlations c);
        ttl := ttl c |})
  ∧ Events (created e clk) = [e]
  ∧ ∀ e', matchesGroup (keys_of e') (created e clk) = false.
Proof.
  intros Hk. split; [|split; [reflexivity|]].
  - rewrite Correlate_creates.
    + unfold created. simpl. by rewrite Hk.
    + intros id g _. by rewrite Hk.
  - intros e'. apply matchesGroup_keyless. simpl. exact Hk.
Qed.

Lemma X1_witness :
  Correlate [] (still t1) NewCorrelator plain_1
  = (generateCorrelationID [] t1,
     {| correlations := <[generateCorrelationID [] t1 := created plain_1 (still t1)]> ∅;
        ttl := 1 * time.Hour |})
  ∧ Events (created plain_1 (still t1)) = [plain_1]
  ∧ ∀ e', matchesGroup (keys_of e') (created plain_1 (still t1)) = false.
Proof. exact (X1_keyless_event_gets_closed_group [] (still t1) NewCorrelator plain_1 eq_refl). Defined.

(** Every group of a reachable table is stored under its own identifier. *)
Lemma run_id calls id g : correlations (run calls) !! id = Some g -> ID g = id.
Proof.
  revert id g. induction calls as [|k calls IH] using rev_ind; intros id g.
  - unfold run. simpl. by rewrite lookup_empty.
  - rewrite run_snoc. destruct k as [order clk event|order now]; simpl.
    + destruct (Correlate_cases order clk (run calls) event)
        as [(i & gi & Hgi & _ & _ & ->)|[_ ->]]; simpl; rewrite lookup_insert;
        case_decide; try apply IH.
      * intros [= <-]. subst. simpl. by apply IH.
      * by intros [= <-].
    + intros Hg. apply sweep_keeps in Hg. by apply IH.
Qed.

(** The entry a call of [Correlate] writes. *)
Lemma Correlate_returned_entry calls order clk event :
  ∃ g, snd (Correlate order clk (run calls) event)
       = {| correlations :=
              <[fst (Correlate order clk (run calls) event) := g]> (correlations (run calls));
            ttl := ttl (run calls) |}
       ∧ GetGroup (snd (Correlate order clk (run calls) event))
           (fst (Correlate order clk (run calls) event)) = Some g
       ∧ ID g = fst (Correlate order clk (run calls) event)
       ∧ last (Events g) = Some event
       ∧ (UpdatedAt g = now0 clk ∨ UpdatedAt g = now2 clk).
Proof.
  destruct (Correlate_cases order clk (run calls) event)
    as [(id & g & Hg & _ & _ & ->)|[_ ->]]; simpl.
  - exists (joined g event (now0 clk)). rewrite (run_id calls id g Hg).
    unfold GetGroup. simpl. rewrite lookup_insert_eq. repeat split; try done.
    + by rewrite (run_id calls id g Hg).
    + apply last_snoc.
    + by left.
  - exists (created event clk). unfold GetGroup. simpl. rewrite lookup_insert_eq.
    repeat split; try done. by right.
Qed.

(** X2. On a reachable table, [Correlate] writes one entry, the one under
    the identifier it returns, and leaves every other entry as it was;
    [GetGroup] at that identifier finds a group that carries the
    identifier, holds the event as its last member and was updated at a
    reading of this call. *)
Theorem X2_correlate_writes_the_returned_entry calls order clk event :
  ∃ g, snd (Correlate order clk (run calls) event)
       = {| correlations :=
              <[fst (Correlate order clk (run calls) event) := g]> (correlations (run calls));
            ttl := ttl (run calls) |}
       ∧ GetGroup (snd (Correlate order clk (run calls) event))
           (fst (Correlate order clk (run calls) event)) = Some g
       ∧ ID g = fst (Correlate order clk (run calls) event)
       ∧ last (Events g) = Some event
       ∧ (UpdatedAt g = now0 clk ∨ UpdatedAt g = now2 clk).
Proof. apply Correlate_returned_entry. Qed.

(** X3. [Correlate] never deletes: every identifier of the table is still
    in it afterwards, and the number of groups stays or grows by one. *)
Theorem X3_correlate_never_deletes order clk c event :
  (∀ id, is_Some (correlations c !! id) ->
         is_Some (correlations (snd (Correlate order clk c event)) !! id))
  ∧ (size (correlations c) <= size (correlations (snd (Correlate order clk c event))))%nat
  ∧ (size (correlations (snd (Correlate order clk c event))) <= S (size (correlations c)))%nat.
Proof.
  assert (Hins : ∀ (i : string) (x : CorrelationGroup) (T : gmap string CorrelationGroup),
             (∀ id, is_Some (T !! id) -> is_Some (<[i := x]> T !! id))
             ∧ (size T <= size (<[i := x]> T))%nat ∧ (size (<[i := x]> T) <= S (size T))%nat).
  { intros i x T. split.
    - intros id Hid. rewrite lookup_insert. by case_decide.
    - rewrite map_size_insert. destruct (T !! i); simpl; lia. }
  destruct (Correlate_cases order clk c event) as [(id & g & _ & _ & _ & ->)|[_ ->]];
    simpl; apply Hins.
Qed.

(** *** Sweeps *)
Lemma sweep_ttl order now c : ttl (sweep order now c) = ttl c.
Proof. reflexivity. Qed.

Lemma Correlator_eq c1 c2 :
  correlations c1 = correlations c2 -> ttl c1 = ttl c2 -> c1 = c2.
Proof. destruct c1, c2. simpl. by intros -> ->. Qed.

Lemma sweep_ext o1 o2 now c :
  (∀ id, is_Some (correlations c !! id) -> id ∈ o1 ↔ id ∈ o2) ->
  sweep o1 now c = sweep o2 now c.
Proof.
  intros Hsame. apply Correlator_eq; [|done]. apply map_eq. intros id.
  rewrite !sweep_lookup.
  destruct (correlations c !! id) as [g|] eqn:Eg.
  - assert (Hid : id ∈ o1 ↔ id ∈ o2) by (apply Hsame; rewrite Eg; by eexists).
    destruct (decide (id ∈ o1 ∧ _)) as [[? ?]|Hn1], (decide (id ∈ o2 ∧ _)) as [[? ?]|Hn2];
      try done; exfalso; [apply Hn2|apply Hn1]; split; try done; by apply Hid.
  - by destruct (decide _), (decide _).
Qed.

(** X4. The result of a sweep does not depend on the order in which the
    runtime ranges over the table. *)
Theorem X4_sweep_order_does_not_matter o1 o2 now c :
  iteration (correlations c) o1 -> iteration (correlations c) o2 ->
  sweep o1 now c = sweep o2 now c.
Proof.
  intros H1 H2. apply sweep_ext. intros id Hid.
  rewrite (iteration_elem _ _ id H1), (iteration_elem _ _ id H2). done.
Qed.

Lemma sweep_order_rev_iteration : iteration (correlations (run old_and_new)) sweep_order_rev.
Proof. unfold iteration. vm_compute. apply perm_swap. Qed.

Lemma X4_witness :
  sweep sweep_order sweep_time (run old_and_new)
  = sweep sweep_order_rev sweep_time (run old_and_new).
Proof.
  exact (X4_sweep_order_does_not_matter sweep_order sweep_order_rev sweep_time
           (run old_and_new) sweep_order_iteration sweep_order_rev_iteration).
Defined.

(** After a sweep over the whole table no group it would delete is left. *)
Lemma sweep_leaves_none_doomed order now c id :
  iteration (correlations c) order -> doomed (sweep order now c) now id = false.
Proof.
  intros Hit. unfold doomed. destruct (correlations (sweep order now c) !! id) as [g|] eqn:Eg;
    [|done].
  pose proof Eg as Eg'. rewrite sweep_lookup in Eg'.
  destruct (decide _) as [|Hn]; [done|].
  destruct (expired c now g) eqn:Ex; [|done]. exfalso. apply Hn. split.
  - apply (iteration_elem _ _ _ Hit). by rewrite Eg'.
  - unfold doomed. by rewrite Eg'.
Qed.

(** X5. Sweeping twice at one reading of the clock is sweeping once. *)
Theorem X5_sweep_is_idempotent o1 o2 now c :
  iteration (correlations c) o1 ->
  sweep o2 now (sweep o1 now c) = sweep o1 now c.
Proof.
  intros Hit. apply Correlator_eq; [|done]. apply map_eq. intros id.
  rewrite (sweep_lookup o2 now (sweep o1 now c) id).
  rewrite (sweep_leaves_none_doomed o1 now c id Hit).
  by destruct (decide _) as [[_ ?]|].
Qed.

Lemma X5_witness :
  sweep sweep_order_rev sweep_time (sweep sweep_order sweep_time (run old_and_new))
  = sweep sweep_order sweep_time (run old_and_new).
Proof.
  exact (X5_sweep_is_idempotent sweep_order sweep_order_rev sweep_time (run old_and_new)
           sweep_order_iteration).
Defined.

End MoreTable.

Section MoreSweeps.
Import normalization correlation shared groups sample scenario scenario2 format.
Implicit Types (g : CorrelationGroup) (e event : EventPtr) (c : Correlator).
Implicit Types (calls : list call) (order : list string).

Lemma hour_in_range calls :
  time.minDuration <= ttl (run calls) < time.maxDuration.
Proof. rewrite run_ttl. unfold time.minDuration, time.maxDuration. vm_compute. by split. Qed.

(** A sweep over the whole table deletes every group older than the TTL. *)
Lemma sweep_drops calls order now id g :
  iteration (correlations (run calls)) order ->
  correlations (run calls) !! id = Some g -> older_than_ttl (run calls) now g ->
  correlations (sweep order now (run calls)) !! id = None.
Proof.
  intros Hit Hg Hold. rewrite sweep_lookup.
  destruct (decide _) as [|Hn]; [done|]. exfalso. apply Hn. split.
  - apply (iteration_elem _ _ _ Hit). by exists g.
  - unfold doomed. rewrite Hg. apply expired_iff; [apply hour_in_range|done].
Qed.

(** X6. A group that [Correlate] has just created or extended is kept by
    every sweep that runs within the hour after the readings of that
    call: joining a group renews it. *)
Theorem X6_correlated_group_survives_the_hour calls order clk event sorder now :
  time.nanos now - time.nanos (now0 clk) <= 3600 * 10 ^ 9 ->
  time.nanos now - time.nanos (now2 clk) <= 3600 * 10 ^ 9 ->
  GetGroup (sweep sorder now (snd (Correlate order clk (run calls) event)))
    (fst (Correlate order clk (run calls) event))
  = GetGroup (snd (Correlate order clk (run calls) event))
      (fst (Correlate order clk (run calls) event))
  ∧ is_Some (GetGroup (sweep sorder now (snd (Correlate order clk (run calls) event)))
               (fst (Correlate order clk (run calls) event))).
Proof.
  intros H0 H2.
  destruct (Correlate_returned_entry calls order clk event)
    as (g & Hsnd & Hget & _ & _ & Hupd).
  assert (Hkeep : GetGroup (sweep sorder now (snd (Correlate order clk (run calls) event)))
                    (fst (Correlate order clk (run calls) event)) = Some g).
  { unfold GetGroup in *. rewrite sweep_lookup, Hget.
    destruct (decide _) as [[_ Hd]|]; [|done]. exfalso.
    unfold doomed in Hd. rewrite Hget in Hd.
    apply expired_iff in Hd.
    - unfold older_than_ttl in Hd. rewrite Correlate_ttl, run_ttl in Hd.
      change (1 * time.Hour) with (3600 * 10 ^ 9) in Hd.
      destruct Hupd as [Hu|Hu]; rewrite Hu in Hd; lia.
    - rewrite Correlate_ttl. apply hour_in_range. }
  rewrite Hkeep, Hget. split; [done|by eexists].
Qed.

End MoreSweeps.

Section MoreSweepsScenarios.
Import normalization correlation shared groups sample scenario scenario2 format.
Implicit Types (g : CorrelationGroup) (e event : EventPtr) (c : Correlator).
Implicit Types (calls : list call) (order : list string).

Lemma X6_witness :
  GetGroup (sweep [fst ip_1] half_hour
              (snd (Correlate [fst ip_1] (still t2)
                      (run [CallCorrelate [] (still t1) e_ip]) e_both)))
    (fst (Correlate [fst ip_1] (still t2) (run [CallCorrelate [] (still t1) e_ip]) e_both))
  = GetGroup (snd (Correlate [fst ip_1] (still t2)
                     (run [CallCorrelate [] (still t1) e_ip]) e_both))
      (fst (Correlate [fst ip_1] (still t2) (run [CallCorrelate [] (still t1) e_ip]) e_both))
  ∧ is_Some (GetGroup (sweep [fst ip_1] half_hour
                         (snd (Correlate [fst ip_1] (still t2)
                                 (run [CallCorrelate [] (still t1) e_ip]) e_both)))
               (fst (Correlate [fst ip_1] (still t2)
                       (run [CallCorrelate [] (still t1) e_ip]) e_both))).
Proof.
  apply (X6_correlated_group_survives_the_hour [CallCorrelate [] (still t1) e_ip]
           [fst ip_1] (still t2) e_both [fst ip_1] half_hour); vm_compute; discriminate.
Defined.

(** X7. Once the sweep has removed every group that an event would have
    matched, [Correlate] finds no match and creates a new group for the
    event: an evicted group is never joined again. *)
Theorem X7_after_eviction_a_new_group calls sorder now order clk e :
  iteration (correlations (run calls)) sorder ->
  (∀ id g, correlations (run calls) !! id = Some g ->
           matchesGroup (keys_of e) g = true -> older_than_ttl (run calls) now g) ->
  Correlate order clk (sweep sorder now (run calls)) e
  = (ID (created e clk),
     {| correlations :=
          <[ID (created e clk) := created e clk]>
            (correlations (sweep sorder now (run calls)));
        ttl := ttl (run calls) |}).
Proof.
  intros Hit Hold. rewrite Correlate_creates; [reflexivity|]. intros id g Hg.
  destruct (matchesGroup (keys_of e) g) eqn:Hm; [|done]. exfalso.
  pose proof (sweep_keeps _ _ _ _ _ Hg) as Hg0.
  rewrite (sweep_drops calls sorder now id g Hit Hg0 (Hold id g Hg0 Hm)) in Hg. done.
Qed.

Lemma old_and_new_matches_are_old id g :
  correlations (run old_and_new) !! id = Some g ->
  matchesGroup (keys_of e_both) g = true -> older_than_ttl (run old_and_new) sweep_time g.
Proof.
  intros Hg Hm. apply elem_of_map_to_list in Hg. vm_compute in Hg.
  repeat (apply elem_of_cons in Hg as [Hg|Hg];
          [injection Hg as -> ->;
           first [ by (unfold older_than_ttl; vm_compute) | by (vm_compute in Hm) ] |]).
  by apply elem_of_nil in Hg.
Qed.

Lemma X7_witness :
  Correlate sweep_order (still sweep_time) swept e_both
  = (ID (created e_both (still sweep_time)),
     {| correlations :=
          <[ID (created e_both (still sweep_time)) := created e_both (still sweep_time)]>
            (correlations (sweep sweep_order sweep_time (run old_and_new)));
        ttl := ttl (run old_and_new) |}).
Proof.
  exact (X7_after_eviction_a_new_group old_and_new sweep_order sweep_time sweep_order
           (still sweep_time) e_both sweep_order_iteration old_and_new_matches_are_old).
Defined.

(** Reading the table at each of its own keys gives its values. *)
Lemma omap_lookup_entries (T : gmap string CorrelationGroup) (l : list (string * CorrelationGroup)) :
  (∀ k v, (k, v) ∈ l -> T !! k = Some v) ->
  omap (fun id => T !! id) l.*1 = l.*2.
Proof.
  induction l as [|[k v] l IH]; intros Hl; [done|]. simpl.
  rewrite (Hl k v); [|apply list_elem_of_here]. f_equal. apply IH.
  intros k' v' Hin. apply Hl. by apply list_elem_of_further.
Qed.

(** X8. [GetActiveGroups] returns every group of the table once, in the
    order the runtime ranges over it: as many groups as the table has
    entries, and no other. *)
Theorem X8_active_groups_are_the_table order c :
  iteration (correlations c) order ->
  GetActiveGroups order c ≡ₚ (map_to_list (correlations c)).*2
  ∧ length (GetActiveGroups order c) = size (correlations c).
Proof.
  intros Hit. unfold iteration in Hit.
  assert (Hperm : GetActiveGroups order c ≡ₚ (map_to_list (correlations c)).*2).
  { unfold GetActiveGroups. rewrite Hit. rewrite omap_lookup_entries; [done|].
    intros k v Hin. by apply elem_of_map_to_list. }
  split; [done|]. rewrite Hperm, length_fmap. apply length_map_to_list.
Qed.

Lemma X8_witness :
  GetActiveGroups sweep_order (run old_and_new)
    ≡ₚ (map_to_list (correlations (run old_and_new))).*2
  ∧ length (GetActiveGroups sweep_order (run old_and_new))
    = size (correlations (run old_and_new)).
Proof.
  exact (X8_active_groups_are_the_table sweep_order (run old_and_new) sweep_order_iteration).
Defined.

(** *** Identifiers *)
Lemma be_bytes_length n x : length (sha256.be_bytes n x) = n.
Proof. induction n as [|n IH]; simpl; [done|by rewrite IH]. Qed.

Lemma be_bytes_range n x : Forall (fun b => 0 <= b < 256) (sha256.be_bytes n x).
Proof.
  induction n as [|n IH]; simpl; constructor; [|done].
  by apply Z.mod_pos_bound.
Qed.

Lemma Sum_bytes s :
  length (sha256.Sum s) = 32%nat ∧ Forall (fun b => 0 <= b < 256) (sha256.Sum s).
Proof.
  unfold sha256.Sum.
  destruct (sha256.blocks _ _ _) as [[[[[[[a b] c] d] e] f] g] h].
  cbn [flat_map]. split.
  - rewrite !length_app, !be_bytes_length. done.
  - repeat (apply Forall_app; split; [apply be_bytes_range|]). constructor.
Qed.

Lemma digit_hex n : 0 <= n < 16 -> hex.digit n ∈ hex_digits.
Proof.
  intros Hn.
  assert (Hcase : ∃ k : nat, (k < 16)%nat ∧ n = Z.of_nat k).
  { exists (Z.to_nat n). lia. }
  destruct Hcase as (k & Hk & ->). apply list_elem_of_In.
  do 16 (destruct k as [|k]; [vm_compute; tauto|]). lia.
Qed.

Lemma EncodeToString_shape bs :
  Forall (fun b => 0 <= b < 256) bs ->
  String.length (hex.EncodeToString bs) = (2 * length bs)%nat
  ∧ is_hex (hex.EncodeToString bs).
Proof.
  unfold is_hex. induction 1 as [|b bs Hb _ [IHl IHh]]; simpl; [by split|].
  split; [rewrite IHl; lia|].
  constructor; [apply digit_hex; split; [apply Z.div_pos|apply Z.div_lt_upper_bound]; lia|].
  constructor; [apply digit_hex; by apply Z.mod_pos_bound|]. done.
Qed.

Lemma prefix_shape n s :
  (n <= String.length s)%nat -> is_hex s ->
  String.length (prefix n s) = n ∧ is_hex (prefix n s).
Proof.
  unfold is_hex. revert s. induction n as [|n IH]; intros s Hn Hs.
  - destruct s; simpl; split; try done; constructor.
  - destruct s as [|ch s]; simpl in *; [lia|].
    apply Forall_cons in Hs as [Hc Hs]. destruct (IH s) as [IHl IHh]; [lia|done|].
    split; [by rewrite IHl|]. by constructor.
Qed.

(** X9. An identifier made by [generateCorrelationID] is always 16
    lowercase hexadecimal digits, whatever the keys and the clock text. *)
Theorem X9_identifier_is_16_hex_digits (keys : list string) (now : time.Time) :
  String.length (generateCorrelationID keys now) = 16%nat
  ∧ is_hex (generateCorrelationID keys now).
Proof.
  unfold generateCorrelationID.
  destruct (Sum_bytes (fold_left append keys "" +:+ time.text now)) as [Hl Hr].
  destruct (EncodeToString_shape _ Hr) as [Hel Heh].
  apply prefix_shape; [rewrite Hel, Hl; lia|done].
Qed.

End MoreSweepsScenarios.

(** * More of the pipeline *)
Section MorePipeline.
Import normalization hub scenario.
#[local] Set Warnings "-inexact-float".

Variable json_Unmarshal : string -> ai.RiskAnalysis + string.
Variable buildRawEventPrompt : ingestion.RawEvent -> string.

Local Abbreviation processEvent := (hub.processEvent json_Unmarshal buildRawEventPrompt).
Local Abbreviation AnalyzeRawEvent := (ai.AnalyzeRawEvent json_Unmarshal buildRawEventPrompt).

(** What [Normalize] returns when it succeeds. *)
Lemma Normalize_inl schema raw event :
  Normalize schema raw = inl event ->
  (schema = "ocsf" ∧ event = normalizeToOCSF raw) ∨ (schema = "ecs" ∧ event = normalizeToECS raw).
Proof.
  unfold Normalize.
  destruct (String.eqb schema "ocsf") eqn:E1;
    [apply String.eqb_eq in E1; intros [= <-]; by left|].
  destruct (String.eqb schema "ecs") eqn:E2;
    [apply String.eqb_eq in E2; intros [= <-]; by right|done].
Qed.

Lemma Normalize_no_data schema raw event :
  Normalize schema raw = inl event -> Data event = ∅.
Proof.
  intros H. destruct (Normalize_inl _ _ _ H) as [[_ ->]|[_ ->]];
    unfold normalizeToOCSF, normalizeToECS;
    repeat (match goal with |- context [String.eqb ?a ?b] => destruct (String.eqb a b) end);
    reflexivity.
Qed.

Lemma no_data_no_keys event :
  Data event = ∅ -> correlation.extractCorrelationKeys event = [].
Proof. intros H. unfold correlation.extractCorrelationKeys. by rewrite H, !lookup_empty. Qed.

(** The state and the record at the end of a task whose event is
    normalized. *)
Lemma processEvent_ok (rt : Runtime) (p : Pipeline) (raw : ingestion.RawEvent)
      (event : NormalizedEvent) :
  Normalize (normalizer p) raw = inl event ->
  ∃ pe, record_of (snd (processEvent rt p raw)) = Some pe
        ∧ ID pe = ingestion.ID raw ∧ Timestamp pe = ingestion.Timestamp raw
        ∧ Source pe = ingestion.Source raw ∧ SourceType pe = ingestion.SourceType raw
        ∧ NormalizedData pe = Data event ∧ RawData pe = ingestion.Data raw
        ∧ Enrichments pe = fst (enrichment.Enrich (enricher p) event)
        ∧ CorrelationID pe
          = fst (correlation.Correlate (order rt) (clk rt) (correlator p)
                   {| addr := fresh rt; deref := event |})
        ∧ correlator (fst (processEvent rt p raw))
          = snd (correlation.Correlate (order rt) (clk rt) (correlator p)
                   {| addr := fresh rt; deref := event |})
        ∧ (if (length (outputChan p) <? capacity)%nat
           then snd (processEvent rt p raw) = Delivered pe
                ∧ outputChan (fst (processEvent rt p raw)) = outputChan p ++ [pe]
                ∧ last (logger (fst (processEvent rt p raw))) = Some (Info, "Event processed")
           else snd (processEvent rt p raw) = Blocked pe
                ∧ outputChan (fst (processEvent rt p raw)) = outputChan p).
Proof.
  intros Hn. unfold hub.processEvent.
  destruct (AnalyzeRawEvent (aiAnalyzer p) raw) as [[a|e] logs1]; rewrite Hn; cbn [fst];
    destruct (enrichment.Enrich (enricher p) event) as [enrichments logs3];
    destruct (correlation.Correlate _ _ _ _) as [cid c'].
  - destruct (calculateRisk (Some a) event) as [score level].
    destruct (_ <? _)%nat; cbn [record_of snd fst]; eexists; (split; [reflexivity|]);
      cbn [ID Timestamp Source SourceType NormalizedData RawData Enrichments CorrelationID
           correlator outputChan logger]; repeat split; try done.
    rewrite !app_assoc. apply last_snoc.
  - destruct (calculateRisk None event) as [score level].
    destruct (_ <? _)%nat; cbn [record_of snd fst]; eexists; (split; [reflexivity|]);
      cbn [ID Timestamp Source SourceType NormalizedData RawData Enrichments CorrelationID
           correlator outputChan logger]; repeat split; try done.
    rewrite !app_assoc. apply last_snoc.
Qed.

(** X10. With the normalizer as it is written, whose mappers leave the
    canonical attributes empty, the event of every task has no
    correlation key: the task always creates a new group, holding its
    event alone, and the correlation identifier of the record is made
    from the text of the clock reading only. *)
Theorem X10_pipeline_events_never_share_a_group (rt : Runtime) (p : Pipeline)
        (raw : ingestion.RawEvent) (event : NormalizedEvent) :
  Normalize (normalizer p) raw = inl event ->
  correlation.extractCorrelationKeys event = []
  ∧ correlator (fst (processEvent rt p raw))
    = {| correlation.correlations :=
           <[correlation.generateCorrelationID [] (correlation.now0 (clk rt)) :=
               shared.created {| addr := fresh rt; deref := event |} (clk rt)]>
             (correlation.correlations (correlator p));
         correlation.ttl := correlation.ttl (correlator p) |}
  ∧ ∃ pe, record_of (snd (processEvent rt p raw)) = Some pe
          ∧ NormalizedData pe = ∅
          ∧ CorrelationID pe
            = correlation.generateCorrelationID [] (correlation.now0 (clk rt)).
Proof.
  intros Hn.
  pose proof (no_data_no_keys event (Normalize_no_data _ _ _ Hn)) as Hk.
  destruct (processEvent_ok rt p raw event Hn)
    as (pe & Hpe & _ & _ & _ & _ & Hdata & _ & _ & Hcid & Hcorr & _).
  assert (Hc : correlation.Correlate (order rt) (clk rt) (correlator p)
                 {| addr := fresh rt; deref := event |}
               = (correlation.generateCorrelationID [] (correlation.now0 (clk rt)),
                  {| correlation.correlations :=
                       <[correlation.generateCorrelationID [] (correlation.now0 (clk rt)) :=
                           shared.created {| addr := fresh rt; deref := event |} (clk rt)]>
                         (correlation.correlations (correlator p));
                     correlation.ttl := correlation.ttl (correlator p) |})).
  { rewrite Correlate_creates.
    - unfold shared.created, shared.keys_of. simpl. by rewrite Hk.
    - intros id g _. unfold shared.keys_of. simpl. by rewrite Hk. }
  split; [done|]. split; [by rewrite Hcorr, Hc|].
  exists pe. split; [done|]. split.
  - by rewrite Hdata, (Normalize_no_data _ _ _ Hn).
  - by rewrite Hcid, Hc.
Qed.

(** X11. While the output queue has room, a task whose event is
    normalized delivers one record: it is appended at the end of the
    queue, carries the identifier, timestamp, source and raw attributes of
    the raw event, and the last record logged is "Event processed". *)
Theorem X11_room_in_queue_delivers_one_record (rt : Runtime) (p : Pipeline)
        (raw : ingestion.RawEvent) (event : NormalizedEvent) :
  Normalize (normalizer p) raw = inl event ->
  (length (outputChan p) < capacity)%nat ->
  ∃ pe, snd (processEvent rt p raw) = Delivered pe
        ∧ outputChan (fst (processEvent rt p raw)) = outputChan p ++ [pe]
        ∧ ID pe = ingestion.ID raw ∧ Timestamp pe = ingestion.Timestamp raw
        ∧ Source pe = ingestion.Source raw ∧ SourceType pe = ingestion.SourceType raw
        ∧ RawData pe = ingestion.Data raw
        ∧ last (logger (fst (processEvent rt p raw))) = Some (Info, "Event processed").
Proof.
  intros Hn Hroom.
  destruct (processEvent_ok rt p raw event Hn)
    as (pe & _ & Hid & Hts & Hs & Hst & _ & Hraw & _ & _ & _ & Hq).
  apply Nat.ltb_lt in Hroom. rewrite Hroom in Hq. destruct Hq as (Hd & Hout & Hlog).
  exists pe. by repeat split.
Qed.

(** X12. When the output queue is full, the task stops at the send: no
    record is added to the queue, and yet the correlation table already
    holds the group of the event, under the identifier of the record that
    was not sent. *)
Theorem X12_full_queue_blocks_after_correlating (rt : Runtime) (p : Pipeline)
        (raw : ingestion.RawEvent) (event : NormalizedEvent) :
  Normalize (normalizer p) raw = inl event ->
  (capacity <= length (outputChan p))%nat ->
  ∃ pe, snd (processEvent rt p raw) = Blocked pe
        ∧ outputChan (fst (processEvent rt p raw)) = outputChan p
        ∧ correlation.Events
            <$> correlation.GetGroup (correlator (fst (processEvent rt p raw)))
                  (CorrelationID pe)
          = Some [{| addr := fresh rt; deref := event |}].
Proof.
  intros Hn Hfull.
  pose proof (no_data_no_keys event (Normalize_no_data _ _ _ Hn)) as Hk.
  destruct (processEvent_ok rt p raw event Hn)
    as (pe & _ & _ & _ & _ & _ & _ & _ & _ & Hcid & Hcorr & Hq).
  assert (Hlt : (length (outputChan p) <? capacity)%nat = false) by by apply Nat.ltb_ge.
  rewrite Hlt in Hq. destruct Hq as (Hb & Hout).
  exists pe. split; [done|]. split; [done|].
  rewrite Hcorr, Hcid, Correlate_creates.
  - unfold correlation.GetGroup. simpl. by rewrite lookup_insert_eq.
  - intros id g _. unfold shared.keys_of. simpl. by rewrite Hk.
Qed.

(** X13. [AnalyzeRawEvent] returns an error exactly when the call of the
    provider fails, with the text of that error after "AI analysis
    failed: "; an answer that does not parse is not an error: the
    fallback judgment is returned and one warning is logged; an answer
    that parses is returned as it is, with nothing logged. *)
Theorem X13_analysis_fails_only_with_the_provider (a : ai.Analyzer) (raw : ingestion.RawEvent) :
  (∀ err, ai.Analyze (ai.provider a) (buildRawEventPrompt raw) = inr err ->
          AnalyzeRawEvent a raw = (inr ("AI analysis failed: " +:+ err), []))
  ∧ (∀ response analysis,
        ai.Analyze (ai.provider a) (buildRawEventPrompt raw) = inl response ->
        json_Unmarshal (ai.Content response) = inl analysis ->
        AnalyzeRawEvent a raw = (inl analysis, []))
  ∧ (∀ response err,
        ai.Analyze (ai.provider a) (buildRawEventPrompt raw) = inl response ->
        json_Unmarshal (ai.Content response) = inr err ->
        AnalyzeRawEvent a raw
        = (inl (ai.fallbackAnalysis raw),
           [(Warn, "Failed to parse AI response, using fallback")]))
  ∧ (∀ err, fst (AnalyzeRawEvent a raw) = inr err ->
            ∃ e, ai.Analyze (ai.provider a) (buildRawEventPrompt raw) = inr e).
Proof.
  unfold ai.AnalyzeRawEvent, ai.parseRiskAnalysis. repeat split.
  - by intros err ->.
  - by intros response analysis -> ->.
  - by intros response err -> ->.
  - intros err. destruct (ai.Analyze _ _) as [response|e]; [|by eexists].
    by destruct (json_Unmarshal (ai.Content response)).
Qed.

End MorePipeline.

Section MorePipelineScenarios.
Import normalization hub scenario scenario3 risk.
#[local] Set Warnings "-inexact-float".

Lemma X10_witness :
  correlation.extractCorrelationKeys (normalizeToOCSF (sample.raw "evt-1")) = []
  ∧ correlator (fst (processEvent reject_text no_prompt runtime (pipeline "ocsf" chatty)
                       (sample.raw "evt-1")))
    = {| correlation.correlations :=
           <[correlation.generateCorrelationID [] (correlation.now0 (clk runtime)) :=
               shared.created {| addr := fresh runtime;
                                 deref := normalizeToOCSF (sample.raw "evt-1") |}
                 (clk runtime)]>
             (correlation.correlations (correlator (pipeline "ocsf" chatty)));
         correlation.ttl := correlation.ttl (correlator (pipeline "ocsf" chatty)) |}
  ∧ ∃ pe, record_of (snd (processEvent reject_text no_prompt runtime (pipeline "ocsf" chatty)
                            (sample.raw "evt-1"))) = Some pe
          ∧ NormalizedData pe = ∅
          ∧ CorrelationID pe
            = correlation.generateCorrelationID [] (correlation.now0 (clk runtime)).
Proof.
  exact (X10_pipeline_events_never_share_a_group reject_text no_prompt runtime
           (pipeline "ocsf" chatty) (sample.raw "evt-1")
           (normalizeToOCSF (sample.raw "evt-1")) eq_refl).
Defined.

Lemma room_for_one : (length (outputChan (queued 999 "ecs" refusing)) < capacity)%nat.
Proof. apply Nat.ltb_lt. vm_compute. reflexivity. Qed.

Lemma X11_witness :
  ∃ pe, snd (processEvent reject_text no_prompt runtime (queued 999 "ecs" refusing)
               (sample.raw "evt-1")) = Delivered pe
        ∧ outputChan (fst (processEvent reject_text no_prompt runtime
                             (queued 999 "ecs" refusing) (sample.raw "evt-1")))
          = outputChan (queued 999 "ecs" refusing) ++ [pe]
        ∧ ID pe = ingestion.ID (sample.raw "evt-1")
        ∧ Timestamp pe = ingestion.Timestamp (sample.raw "evt-1")
        ∧ Source pe = ingestion.Source (sample.raw "evt-1")
        ∧ SourceType pe = ingestion.SourceType (sample.raw "evt-1")
        ∧ RawData pe = ingestion.Data (sample.raw "evt-1")
        ∧ last (logger (fst (processEvent reject_text no_prompt runtime
                               (queued 999 "ecs" refusing) (sample.raw "evt-1"))))
          = Some (Info, "Event processed").
Proof.
  exact (X11_room_in_queue_delivers_one_record reject_text no_prompt runtime
           (queued 999 "ecs" refusing) (sample.raw "evt-1")
           (normalizeToECS (sample.raw "evt-1")) eq_refl room_for_one).
Defined.

Lemma no_room : (capacity <= length (outputChan (queued 1000 "ocsf" chatty)))%nat.
Proof. apply Nat.leb_le. vm_compute. reflexivity. Qed.

Lemma X12_witness :
  ∃ pe, snd (processEvent reject_text no_prompt runtime (queued 1000 "ocsf" chatty)
               (sample.raw "evt-1")) = Blocked pe
        ∧ outputChan (fst (processEvent reject_text no_prompt runtime
                             (queued 1000 "ocsf" chatty) (sample.raw "evt-1")))
          = outputChan (queued 1000 "ocsf" chatty)
        ∧ correlation.Events
            <$> correlation.GetGroup
                  (correlator (fst (processEvent reject_text no_prompt runtime
                                      (queued 1000 "ocsf" chatty) (sample.raw "evt-1"))))
                  (CorrelationID pe)
          = Some [{| addr := fresh runtime; deref := normalizeToOCSF (sample.raw "evt-1") |}].
Proof.
  exact (X12_full_queue_blocks_after_correlating reject_text no_prompt runtime
           (queued 1000 "ocsf" chatty) (sample.raw "evt-1")
           (normalizeToOCSF (sample.raw "evt-1")) eq_refl no_room).
Defined.

(** X14. The level [calculateRisk] gives never goes down when the score
    goes up: for two judgments with [s1 <= s2], the level of the first is
    not above the level of the second in the order info, low, medium,
    high, critical. *)
Theorem X14_calculateRisk_is_monotone (a1 a2 : ai.RiskAnalysis) (ev1 ev2 : NormalizedEvent) :
  (ai.RiskScore a1 <=? ai.RiskScore a2)%float = true ->
  (rank (snd (calculateRisk (Some a1) ev1)) <= rank (snd (calculateRisk (Some a2) ev2)))%nat.
Proof.
  intros Hle. unfold calculateRisk. cbn [snd].
  set (s1 := ai.RiskScore a1) in *. set (s2 := ai.RiskScore a2) in *.
  assert (Hup : ∀ t, (t <=? s1)%float = true -> (t <=? s2)%float = true).
  { intros t Ht. exact (leb_trans t s1 s2 Ht Hle). }
  destruct (0.9 <=? s1)%float eqn:E9.
  { rewrite (Hup 0.9%float E9). done. }
  destruct (0.7 <=? s1)%float eqn:E7.
  { rewrite (Hup 0.7%float E7). destruct (0.9 <=? s2)%float; vm_compute; lia. }
  destruct (0.4 <=? s1)%float eqn:E4.
  { rewrite (Hup 0.4%float E4).
    destruct (0.9 <=? s2)%float, (0.7 <=? s2)%float; vm_compute; lia. }
  destruct (0.1 <=? s1)%float eqn:E1.
  { rewrite (Hup 0.1%float E1).
    destruct (0.9 <=? s2)%float, (0.7 <=? s2)%float, (0.4 <=? s2)%float; vm_compute; lia. }
  change (rank "info") with 0%nat. lia.
Qed.

Lemma X14_witness :
  (rank (snd (calculateRisk (Some (scored 0.5)) (normalizeToOCSF (sample.raw "evt-1"))))
   <= rank (snd (calculateRisk (Some (scored 0.95)) (normalizeToECS (sample.raw "evt-2")))))%nat.
Proof.
  exact (X14_calculateRisk_is_monotone (scored 0.5) (scored 0.95)
           (normalizeToOCSF (sample.raw "evt-1")) (normalizeToECS (sample.raw "evt-2"))
           eq_refl).
Defined.

End MorePipelineScenarios.

(** * Normalization, enrichment and start-up *)
Section MoreNormalization.
Import normalization.

(** X15. [Normalize] fails exactly when the configured schema is neither
    "ocsf" nor "ecs", with the schema named in the error; when it
    succeeds the event carries that schema and its version, the
    identifier, timestamp, source name and class of the raw event, the raw
    attributes under [Raw], and an empty canonical attribute map. *)
Theorem X15_Normalize_by_schema (schema : string) (raw : ingestion.RawEvent) :
  (∀ err, Normalize schema raw = inr err ->
          String.eqb schema "ocsf" = false ∧ String.eqb schema "ecs" = false
          ∧ err = "unsupported schema: " +:+ schema)
  ∧ (∀ event, Normalize schema raw = inl event ->
              Schema event = schema
              ∧ (String.eqb schema "ocsf" = true ∨ String.eqb schema "ecs" = true)
              ∧ SchemaVersion event = (if String.eqb schema "ocsf" then "1.1.0" else "8.11.0")
              ∧ ID event = ingestion.ID raw ∧ Timestamp event = ingestion.Timestamp raw
              ∧ Name (Source event) = ingestion.Source raw
              ∧ Type_ (Source event) = ingestion.SourceType raw
              ∧ Raw event = ingestion.Data raw ∧ Data event = ∅).
Proof.
  unfold Normalize. split.
  - intros err. destruct (String.eqb schema "ocsf"); [done|].
    destruct (String.eqb schema "ecs"); [done|]. by intros [= <-].
  - intros event. destruct (String.eqb schema "ocsf") eqn:E1.
    + apply String.eqb_eq in E1 as ->. intros [= <-]. unfold normalizeToOCSF.
      repeat (match goal with |- context [String.eqb ?a ?b] => destruct (String.eqb a b) end);
        repeat split; auto.
    + destruct (String.eqb schema "ecs") eqn:E2; [|done].
      apply String.eqb_eq in E2 as ->. intros [= <-]. unfold normalizeToECS.
      repeat (match goal with |- context [String.eqb ?a ?b] => destruct (String.eqb a b) end);
        repeat split; auto.
Qed.

(** X16. The severity of a normalized event depends on the class of the
    source only, not on the schema: 70 for edr, 50 for siem, 30 for
    cloud, 60 for dlp, and 0 for any other class; it is within 0 to 100,
    and it is 0 exactly when the category is "unknown". *)
Theorem X16_severity_by_source_class (raw : ingestion.RawEvent) :
  let st := ingestion.SourceType raw in
  let sev := if String.eqb st "edr" then 70 else if String.eqb st "siem" then 50
             else if String.eqb st "cloud" then 30 else if String.eqb st "dlp" then 60
             else 0 in
  Severity (normalizeToOCSF raw) = sev ∧ Severity (normalizeToECS raw) = sev
  ∧ 0 <= sev <= 100
  ∧ (sev =? 0) = String.eqb (Category (normalizeToOCSF raw)) "unknown"
  ∧ (sev =? 0) = String.eqb (Category (normalizeToECS raw)) "unknown"
  ∧ (sev =? 0) = String.eqb (EventType (normalizeToOCSF raw)) "unknown"
  ∧ (sev =? 0) = String.eqb (EventType (normalizeToECS raw)) "unknown".
Proof.
  intros st sev. subst sev. unfold normalizeToOCSF, normalizeToECS. fold st.
  destruct (String.eqb st "edr"); [repeat split; (reflexivity || lia)|].
  destruct (String.eqb st "siem"); [repeat split; (reflexivity || lia)|].
  destruct (String.eqb st "cloud"); [repeat split; (reflexivity || lia)|].
  destruct (String.eqb st "dlp"); repeat split; (reflexivity || lia).
Qed.

(** X17. [getSourceInfo] knows the vendor of a source exactly when it
    knows its product: the two tables have the same keys, so the vendor is
    empty if and only if the product is. *)
Theorem X17_vendor_and_product_together (raw : ingestion.RawEvent) :
  String.eqb (Vendor (getSourceInfo raw)) "" = String.eqb (Product (getSourceInfo raw)) ""
  ∧ Name (getSourceInfo raw) = ingestion.Source raw
  ∧ Type_ (getSourceInfo raw) = ingestion.SourceType raw.
Proof.
  split; [|by split]. unfold getSourceInfo. cbn [Vendor Product].
  generalize (ingestion.Source raw). intros s. unfold vendorMap, productMap. cbn [index].
  repeat (match goal with
          | |- context [String.eqb s ?k] => destruct (String.eqb s k); [reflexivity|]
          end).
  reflexivity.
Qed.

End MoreNormalization.

Section MoreEnrichment.
Import normalization enrichment sources.

(** The loop of [Enrich], started from any map and log. *)
Lemma Enrich_fold (event : NormalizedEvent) (srcs : list EnrichmentSource)
      (m0 : gmap string any) (l0 : list entry) :
  let r := fold_left
             (fun '(enrichments, logs) source =>
                if source_Enabled source then
                  match source_Enrich source event with
                  | inr _ => (enrichments, logs ++ [(Warn, "Enrichment source failed")])
                  | inl data => (<[source_Name source := Obj data]> enrichments, logs)
                  end
                else (enrichments, logs))
             srcs (m0, l0) in
  (∀ name, is_Some (fst r !! name) ->
           is_Some (m0 !! name)
           ∨ ∃ s data, s ∈ srcs ∧ source_Enabled s = true ∧ source_Name s = name
                       ∧ source_Enrich s event = inl data)
  ∧ snd r = l0 ++ repeat (Warn, "Enrichment source failed")
                    (length (List.filter (failing event) srcs)).
Proof.
  revert m0 l0. cbv zeta. induction srcs as [|s srcs IH]; intros m0 l0; cbn [fold_left].
  - simpl. split; [by left|by rewrite app_nil_r].
  - cbn [List.filter].
    destruct (source_Enabled s) eqn:Een; [destruct (source_Enrich s event) as [data|err] eqn:Eer|];
      cbv beta iota.
    + assert (Hf : failing event s = false) by (unfold failing; by rewrite Een, Eer).
      rewrite Hf.
      destruct (IH (<[source_Name s := Obj data]> m0) l0) as [IHm IHl]. split; [|exact IHl].
      intros name Hn. destruct (IHm name Hn) as [Hin|(s' & d & Hs' & ? & ? & ?)].
      * rewrite lookup_insert in Hin. case_decide; [|by left].
        right. exists s, data. split; [apply list_elem_of_here|done].
      * right. exists s', d. split; [by apply list_elem_of_further|done].
    + assert (Hf : failing event s = true) by (unfold failing; by rewrite Een, Eer).
      rewrite Hf.
      destruct (IH m0 (l0 ++ [(Warn, "Enrichment source failed")])) as [IHm IHl]. split.
      * intros name Hn. destruct (IHm name Hn) as [Hin|(s' & d & Hs' & ? & ? & ?)]; [by left|].
        right. exists s', d. split; [by apply list_elem_of_further|done].
      * etransitivity; [exact IHl|]. rewrite <- app_assoc. reflexivity.
    + assert (Hf : failing event s = false) by (unfold failing; by rewrite Een).
      rewrite Hf.
      destruct (IH m0 l0) as [IHm IHl]. split; [|exact IHl].
      intros name Hn. destruct (IHm name Hn) as [Hin|(s' & d & Hs' & ? & ? & ?)]; [by left|].
      right. exists s', d. split; [by apply list_elem_of_further|done].
Qed.

(** X18. [Enrich] never fails as a whole: every key of the map it returns
    is the name of an enabled source whose call succeeded, and it logs one
    warning for each enabled source whose call failed and nothing else; a
    source that is disabled contributes neither. *)
Theorem X18_Enrich_keeps_what_succeeded (e : Enricher) (event : NormalizedEvent) :
  (∀ name, is_Some (fst (Enrich e event) !! name) ->
           ∃ s data, s ∈ sources e ∧ source_Enabled s = true ∧ source_Name s = name
                     ∧ source_Enrich s event = inl data)
  ∧ snd (Enrich e event)
    = repeat (Warn, "Enrichment source failed")
        (length (List.filter (failing event) (sources e))).
Proof.
  destruct (Enrich_fold event (sources e) ∅ []) as [Hm Hl]. split.
  - intros name Hn. destruct (Hm name Hn) as [He|H]; [|done].
    rewrite lookup_empty in He. by destruct He.
  - exact Hl.
Qed.

(** X19. With the sources [NewEnricher] builds, [Enrich] logs nothing and
    returns one entry for each switch that is on, under the names
    "threatforge", "entra_id", "okta" and "asset", and no other. *)
Theorem X19_built_in_sources_by_switch (cfg : EnrichmentConfig) (event : NormalizedEvent) :
  snd (Enrich (NewEnricher cfg) event) = []
  ∧ bool_decide (is_Some (fst (Enrich (NewEnricher cfg) event) !! "threatforge"))
    = ThreatForge cfg
  ∧ bool_decide (is_Some (fst (Enrich (NewEnricher cfg) event) !! "entra_id")) = EntraID cfg
  ∧ bool_decide (is_Some (fst (Enrich (NewEnricher cfg) event) !! "okta")) = Okta cfg
  ∧ bool_decide (is_Some (fst (Enrich (NewEnricher cfg) event) !! "asset")) = Asset cfg
  ∧ size (fst (Enrich (NewEnricher cfg) event))
    = (Nat.b2n (ThreatForge cfg) + Nat.b2n (EntraID cfg)
       + Nat.b2n (Okta cfg) + Nat.b2n (Asset cfg))%nat.
Proof.
  destruct cfg as [[] [] [] []]; vm_compute; repeat split; reflexivity.
Qed.

End MoreEnrichment.

Section MoreStartup.
Import scenario4.

(** X20. [NewAnalyzer] succeeds only for the providers "anthropic" and
    "openai", and only when the environment variable named in the
    configuration of that provider is set; the analyzer then holds a
    provider of the configured name. Any other provider name fails with
    "unsupported AI provider", whatever the environment holds, and a
    missing key fails with the variable named in the error. *)
Theorem X20_NewAnalyzer_needs_provider_and_key
        (Getenv : string -> string)
        (anthropic_Analyze : providers.AnthropicProvider -> string -> ai.Response + string)
        (openai_Analyze : providers.OpenAIProvider -> string -> ai.Response + string)
        (cfg : config.AIConfig) :
  let New := providers.NewAnalyzer Getenv anthropic_Analyze openai_Analyze in
  (∀ a logs, New cfg = inl (a, logs) ->
             ai.Name (ai.provider a) = config.Provider cfg
             ∧ logs = [(Info, "AI analyzer initialized")]
             ∧ ((String.eqb (config.Provider cfg) "anthropic" = true
                 ∧ String.eqb (Getenv (config.anthropic_APIKeyEnv (config.Anthropic cfg))) ""
                   = false)
                ∨ (String.eqb (config.Provider cfg) "openai" = true
                   ∧ String.eqb (Getenv (config.openai_APIKeyEnv (config.OpenAI cfg))) ""
                     = false)))
  ∧ (String.eqb (config.Provider cfg) "anthropic" = false ->
     String.eqb (config.Provider cfg) "openai" = false ->
     New cfg = inr ("unsupported AI provider: " +:+ config.Provider cfg))
  ∧ (String.eqb (config.Provider cfg) "anthropic" = true ->
     String.eqb (Getenv (config.anthropic_APIKeyEnv (config.Anthropic cfg))) "" = true ->
     New cfg = inr ("initializing AI provider anthropic: API key environment variable "
                    +:+ config.anthropic_APIKeyEnv (config.Anthropic cfg) +:+ " not set"))
  ∧ (String.eqb (config.Provider cfg) "openai" = true ->
     String.eqb (Getenv (config.openai_APIKeyEnv (config.OpenAI cfg))) "" = true ->
     New cfg = inr ("initializing AI provider openai: API key environment variable "
                    +:+ config.openai_APIKeyEnv (config.OpenAI cfg) +:+ " not set")).
Proof.
  intros New. subst New. unfold providers.NewAnalyzer, providers.NewAnthropicProvider,
    providers.NewOpenAIProvider. cbv zeta.
  destruct (String.eqb (config.Provider cfg) "anthropic") eqn:E1;
    [apply String.eqb_eq in E1 as Hp
    |destruct (String.eqb (config.Provider cfg) "openai") eqn:E2;
     [apply String.eqb_eq in E2 as Hp|]];
    destruct (String.eqb (Getenv (config.anthropic_APIKeyEnv (config.Anthropic cfg))) "") eqn:Ka;
    destruct (String.eqb (Getenv (config.openai_APIKeyEnv (config.OpenAI cfg))) "") eqn:Ko;
    (split; [intros a logs Heq; try discriminate; injection Heq as <- <-; rewrite ?Hp; auto|]);
    repeat split; intros; try discriminate;
    try (match goal with
         | H : String.eqb (config.Provider cfg) _ = true |- _ =>
             rewrite Hp in H; discriminate H
         end);
    rewrite ?Hp; try reflexivity.
Qed.

(** X21. A configuration that [Load] returns has no unset default: the
    port is not 0 and the provider, both model names and the schema are
    not empty.  What the file sets is kept: each of these five fields is
    the decoded value unless that is the zero value, in which case it is
    the default (8080, anthropic, claude-opus-4-5-20250514, gpt-4-turbo,
    ocsf), and every other field -- the two timeouts, the two key
    variables and the sections without defaults -- is as decoded.  With
    the schema left unset in the file, [Normalize] on the loaded
    configuration succeeds, as OCSF. *)
Theorem X21_Load_fills_the_defaults {Rest : Type}
        (ReadFile : string -> string + string)
        (yaml_Unmarshal : string -> config.Config Rest + string)
        (path data : string) (decoded loaded : config.Config Rest) :
  ReadFile path = inl data -> yaml_Unmarshal data = inl decoded ->
  config.Load ReadFile yaml_Unmarshal path = inl loaded ->
  (config.Port (config.Server loaded) =? 0) = false
  ∧ String.eqb (config.Provider (config.AI loaded)) "" = false
  ∧ String.eqb (config.anthropic_Model (config.Anthropic (config.AI loaded))) "" = false
  ∧ String.eqb (config.openai_Model (config.OpenAI (config.AI loaded))) "" = false
  ∧ String.eqb (config.DefaultSchema (config.Normalization loaded)) "" = false
  ∧ config.Port (config.Server loaded)
    = (if config.Port (config.Server decoded) =? 0 then 8080
       else config.Port (config.Server decoded))
  ∧ config.ReadTimeout (config.Server loaded) = config.ReadTimeout (config.Server decoded)
  ∧ config.WriteTimeout (config.Server loaded) = config.WriteTimeout (config.Server decoded)
  ∧ config.Provider (config.AI loaded)
    = (if String.eqb (config.Provider (config.AI decoded)) "" then "anthropic"
       else config.Provider (config.AI decoded))
  ∧ config.anthropic_Model (config.Anthropic (config.AI loaded))
    = (if String.eqb (config.anthropic_Model (config.Anthropic (config.AI decoded))) ""
       then "claude-opus-4-5-20250514"
       else config.anthropic_Model (config.Anthropic (config.AI decoded)))
  ∧ config.anthropic_APIKeyEnv (config.Anthropic (config.AI loaded))
    = config.anthropic_APIKeyEnv (config.Anthropic (config.AI decoded))
  ∧ config.openai_Model (config.OpenAI (config.AI loaded))
    = (if String.eqb (config.openai_Model (config.OpenAI (config.AI decoded))) ""
       then "gpt-4-turbo"
       else config.openai_Model (config.OpenAI (config.AI decoded)))
  ∧ config.openai_APIKeyEnv (config.OpenAI (config.AI loaded))
    = config.openai_APIKeyEnv (config.OpenAI (config.AI decoded))
  ∧ config.DefaultSchema (config.Normalization loaded)
    = (if String.eqb (config.DefaultSchema (config.Normalization decoded)) "" then "ocsf"
       else config.DefaultSchema (config.Normalization decoded))
  ∧ ((config.Port (config.Server decoded) =? 0) = false ->
     config.Server loaded = config.Server decoded)
  ∧ (String.eqb (config.Provider (config.AI decoded)) "" = false ->
     String.eqb (config.anthropic_Model (config.Anthropic (config.AI decoded))) "" = false ->
     String.eqb (config.openai_Model (config.OpenAI (config.AI decoded))) "" = false ->
     config.AI loaded = config.AI decoded)
  ∧ (String.eqb (config.DefaultSchema (config.Normalization decoded)) "" = false ->
     config.Normalization loaded = config.Normalization decoded)
  ∧ config.Ingestion loaded = config.Ingestion decoded
  ∧ config.Enrichment loaded = config.Enrichment decoded
  ∧ config.rest loaded = config.rest decoded
  ∧ (String.eqb (config.DefaultSchema (config.Normalization decoded)) "" = true ->
     ∀ raw, normalization.Normalize (config.DefaultSchema (config.Normalization loaded)) raw
            = inl (normalization.normalizeToOCSF raw)).
Proof.
  intros Hr Hy. unfold config.Load. rewrite Hr, Hy. intros [= <-]. cbn.
  destruct decoded as [[port rt wt] [provider [amodel akey] [omodel okey]] ing [schema] enr rst].
  cbn.
  destruct (Z.eqb_spec port 0) as [->|Ep];
    destruct (String.eqb provider "") eqn:Epr;
    destruct (String.eqb amodel "") eqn:Ea;
    destruct (String.eqb omodel "") eqn:Eo;
    destruct (String.eqb schema "") eqn:Es;
    cbn; rewrite ?Epr, ?Ea, ?Eo, ?Es; repeat split; try done;
    try (by apply Z.eqb_neq).
Qed.

Lemma X21_witness :
  match config.Load read_ok decode_unset "configs/config.yaml" with
  | inl loaded =>
      (config.Port (config.Server loaded) =? 0) = false
      ∧ String.eqb (config.Provider (config.AI loaded)) "" = false
  | inr _ => False
  end.
Proof.
  destruct (X21_Load_fills_the_defaults read_ok decode_unset "configs/config.yaml"
              "server: {}" unset _ eq_refl eq_refl eq_refl) as (Hport & Hprov & _).
  exact (conj Hport Hprov).
Defined.

End MoreStartup.

Section MoreIngestion.
Import manager roster scenario4.

Lemma add_pick (b : bool) (new : bool -> Collector) (cs : list Collector) :
  add b new cs = cs ++ pick (b, new true).
Proof. unfold add, pick. destruct b; simpl; [done|by rewrite app_nil_r]. Qed.

(** The collectors of the manager are the entries of the table whose
    switch is on, in the order of the table. *)
Lemma NewManager_table (cfg : config.IngestionConfig) :
  collectors (NewManager cfg) = flat_map pick (table cfg).
Proof.
  unfold NewManager, table. cbv zeta. rewrite !add_pick. cbn [flat_map collectors].
  rewrite app_nil_r, <- !app_assoc. reflexivity.
Qed.

Lemma picked_sublist (l : list (bool * Collector)) : flat_map pick l `sublist_of` l.*2.
Proof.
  induction l as [|[[] c] l IH]; simpl.
  - constructor.
  - by apply sublist_skip.
  - by apply sublist_cons.
Qed.

Lemma picked_in_table (cfg : config.IngestionConfig) (c : Collector) :
  c ∈ collectors (NewManager cfg) -> ∃ b, (b, c) ∈ table cfg ∧ b = true.
Proof.
  rewrite NewManager_table, list_elem_of_In, in_flat_map.
  intros ([b c0] & Hin & Hc). unfold pick in Hc. simpl in Hc.
  destruct b; [|done]. destruct Hc as [<-|[]]. exists true. by rewrite list_elem_of_In.
Qed.

(** X22. Every collector the manager holds is enabled: [NewManager] adds
    a collector only for a switch that is on. So [Start] launches each
    collector it holds, [GetCollectorStatus] lists each of them once, in
    the order of construction and as enabled, and no name is listed
    twice. *)
Theorem X22_manager_holds_enabled_collectors_only (cfg : config.IngestionConfig) :
  Forall (fun c => Enabled c = true) (collectors (NewManager cfg))
  ∧ started (NewManager cfg) = collectors (NewManager cfg)
  ∧ map status_Name (GetCollectorStatus (NewManager cfg))
    = map Name (collectors (NewManager cfg))
  ∧ Forall (fun st => status_Enabled st = true) (GetCollectorStatus (NewManager cfg))
  ∧ NoDup (map status_Name (GetCollectorStatus (NewManager cfg))).
Proof.
  assert (Hen : Forall (fun c => Enabled c = true) (collectors (NewManager cfg))).
  { apply Forall_forall. intros c Hc.
    destruct (picked_in_table cfg c Hc) as (b & Hin & ->).
    unfold table in Hin.
    repeat (apply elem_of_cons in Hin as [Hin|Hin]; [by injection Hin as _ ->|]).
    by apply elem_of_nil in Hin. }
  assert (Hnames : map status_Name (GetCollectorStatus (NewManager cfg))
                   = map Name (collectors (NewManager cfg))).
  { unfold GetCollectorStatus. rewrite map_map. done. }
  split; [done|]. split; [|split; [done|split]].
  - unfold started. generalize dependent (collectors (NewManager cfg)).
    intros l Hl _. induction l as [|c l IH]; [done|].
    apply Forall_cons in Hl as [Hc Hl]. simpl. rewrite Hc. f_equal. by apply IH.
  - unfold GetCollectorStatus. apply Forall_forall. intros st Hst.
    apply list_elem_of_In, in_map_iff in Hst as (c & <- & Hc). simpl.
    rewrite Forall_forall in Hen. apply Hen. by apply list_elem_of_In.
  - rewrite Hnames, NewManager_table.
    change (NoDup (Name <$> flat_map pick (table cfg))).
    apply (sublist_NoDup _ (Name <$> (table cfg).*2)); [|apply fmap_sublist, picked_sublist].
    unfold table. simpl. apply (bool_decide_unpack _). vm_compute. exact I.
Qed.

(** X23. The names and classes of the collectors are known to the
    normalizer: a raw event that [CreateRawEvent] builds with the name
    and the class of any collector the manager holds is normalized, in
    either schema, with a category and a type other than "unknown", a
    non-zero severity, and a known vendor and product. *)
Theorem X23_collectors_are_known_to_the_normalizer
        (cfg : config.IngestionConfig) (c : Collector)
        (now : time.Time) (id : string) (data : gmap string any) :
  c ∈ collectors (NewManager cfg) ->
  let raw := CreateRawEvent now id (Name c) (Type_ c) data in
  String.eqb (normalization.Category (normalization.normalizeToOCSF raw)) "unknown" = false
  ∧ String.eqb (normalization.Category (normalization.normalizeToECS raw)) "unknown" = false
  ∧ String.eqb (normalization.EventType (normalization.normalizeToOCSF raw)) "unknown" = false
  ∧ String.eqb (normalization.EventType (normalization.normalizeToECS raw)) "unknown" = false
  ∧ 0 < normalization.Severity (normalization.normalizeToOCSF raw)
  ∧ 0 < normalization.Severity (normalization.normalizeToECS raw)
  ∧ String.eqb (normalization.Vendor (normalization.getSourceInfo raw)) "" = false
  ∧ String.eqb (normalization.Product (normalization.getSourceInfo raw)) "" = false.
Proof.
  intros Hc raw. destruct (picked_in_table cfg c Hc) as (b & Hin & ->).
  unfold raw, CreateRawEvent, normalization.normalizeToOCSF, normalization.normalizeToECS,
    normalization.getSourceInfo.
  cbn [ingestion.Source ingestion.SourceType].
  clear Hc raw. unfold table in Hin.
  repeat (apply elem_of_cons in Hin as [Hin|Hin];
          [injection Hin as _ ->; vm_compute; repeat split; reflexivity|]).
  by apply elem_of_nil in Hin.
Qed.

Lemma splunk_is_held : NewSplunkCollector true ∈ collectors (NewManager some_sources).
Proof. apply list_elem_of_In. vm_compute. tauto. Qed.

Lemma X23_witness :
  String.eqb (normalization.EventType
                (normalization.normalizeToOCSF
                   (CreateRawEvent sample.t1 "evt-9" "splunk" "siem" ∅))) "unknown" = false
  ∧ String.eqb (normalization.Vendor
                  (normalization.getSourceInfo
                     (CreateRawEvent sample.t1 "evt-9" "splunk" "siem" ∅))) "" = false.
Proof.
  destruct (X23_collectors_are_known_to_the_normalizer some_sources (NewSplunkCollector true)
              sample.t1 "evt-9" ∅ splunk_is_held)
    as (_ & _ & Hty & _ & _ & _ & Hv & _).
  exact (conj Hty Hv).
Defined.

End MoreIngestion.

(** * More of the ticketing *)
Section MoreTicketing.
Import ticketing scenario5.

Lemma fold_default rules group :
  fold_left
    (fun group rule =>
       if String.eqb (Condition rule) "default" then rule_AssignmentGroup rule else group)
    rules group
  = match last (defaults rules) with
    | Some rule => rule_AssignmentGroup rule
    | None => group
    end.
Proof.
  revert group. induction rules as [|rule rules IH]; intros group; [done|].
  cbn [fold_left]. rewrite IH. unfold defaults. cbn [List.filter].
  destruct (String.eqb (Condition rule) "default"); [|done].
  rewrite last_cons. by destruct (last _).
Qed.

(** X24. The ServiceNow mappings round-trip on the names they know and
    fall back elsewhere: a status goes to its state and back to itself
    when it is one of the five known statuses, and to [new] otherwise
    (never to [unknown]); a priority goes to its urgency and back to
    itself when it is one of the four known priorities, and to [medium]
    otherwise; impact and urgency use the same table. *)
Theorem X24_servicenow_mappings_round_trip (name : string) :
  mapStateToStatus (mapStatusToState name)
  = (if decide (name ∈ statuses) then name else "new")
  ∧ mapUrgencyToPriority (mapPriorityToUrgency name)
    = (if decide (name ∈ priorities) then name else "medium")
  ∧ mapSeverityToImpact name = mapPriorityToUrgency name.
Proof.
  unfold mapStateToStatus, mapStatusToState, mapUrgencyToPriority, mapPriorityToUrgency,
    mapSeverityToImpact, statuses, priorities.
  cbn [lookup]. split; [|split; [|done]].
  - repeat match goal with
    | |- context [String.eqb name ?k] =>
        destruct (String.eqb_spec name k) as [->|?]
    end; try (vm_compute; reflexivity).
    case_decide as Hin; [|done].
    rewrite !elem_of_cons, elem_of_nil in Hin.
    repeat (destruct Hin as [Hin|Hin]; [congruence|]). destruct Hin.
  - repeat match goal with
    | |- context [String.eqb name ?k] =>
        destruct (String.eqb_spec name k) as [->|?]
    end; try (vm_compute; reflexivity).
    case_decide as Hin; [|done].
    rewrite !elem_of_cons, elem_of_nil in Hin.
    repeat (destruct Hin as [Hin|Hin]; [congruence|]). destruct Hin.
Qed.

(** X25. The assignment group of a ticket is that of the last rule whose
    condition is the text [default]; rules with any other condition are
    ignored, and without a default rule the group is
    [Security Operations]. *)
Theorem X25_last_default_rule_assigns
        (m : Manager) (now1 now2 : time.Time) (event : SecurityEvent) :
  AssignmentGroup (eventToTicket m now1 now2 event)
  = match last (defaults (AssignmentRules (cfg m))) with
    | Some rule => rule_AssignmentGroup rule
    | None => "Security Operations"
    end.
Proof. unfold eventToTicket. cbn [AssignmentGroup]. apply fold_default. Qed.

(** X26. [CreateTicketForEvent] returns an error exactly when the default
    provider is registered, automatic creation is on, the score is not
    below the threshold, and the provider fails on the mapped ticket (the
    error is the provider's, unchanged); it returns a result exactly when
    under the same conditions the provider succeeds.  A missing default
    provider is no error: nothing is returned and one warning is logged. *)
Theorem X26_ticket_errors_come_from_the_provider
        (m : Manager) (now1 now2 : time.Time) (event : SecurityEvent) :
  let called (answer : TicketResult + string) :=
    AutoCreateTicket (cfg m) = true
    ∧ (event_RiskScore event <? MinRiskScore (cfg m))%float = false
    ∧ ∃ provider, GetProvider m (DefaultProvider (cfg m)) = Some provider
        ∧ CreateTicket provider (eventToTicket m now1 now2 event) = answer in
  (∀ err, (CreateTicketForEvent m now1 now2 event).1 = inr err ↔ called (inr err))
  ∧ (∀ result, (CreateTicketForEvent m now1 now2 event).1 = inl (Some result)
               ↔ called (inl result))
  ∧ (AutoCreateTicket (cfg m) = true
     ∧ (event_RiskScore event <? MinRiskScore (cfg m))%float = false
     ∧ GetProvider m (DefaultProvider (cfg m)) = None
     ↔ CreateTicketForEvent m now1 now2 event
       = (inl None, [(Warn, "Default ticketing provider not found")])).
Proof.
  cbv zeta. unfold CreateTicketForEvent, GetProvider.
  destruct (AutoCreateTicket (cfg m)); cbn [negb].
  2:{ repeat split; try discriminate; intros H; try discriminate H;
      try (destruct H as (H & _); discriminate H). }
  destruct (event_RiskScore event <? MinRiskScore (cfg m))%float.
  { repeat split; try discriminate; intros H; try discriminate H;
      try (destruct H as (_ & H & _); discriminate H). }
  destruct (providers m !! DefaultProvider (cfg m)) as [provider|].
  2:{ repeat split; try discriminate; intros H; try discriminate H;
      try (destruct H as (_ & _ & p & H & _); discriminate H). }
  destruct (CreateTicket provider _) as [result|err] eqn:Hc; cbn [fst].
  - split; [|split].
    + intros err. split; [discriminate|].
      intros (_ & _ & p & [= <-] & H). rewrite Hc in H. discriminate H.
    + intros r. split.
      * intros [= ->]. repeat split. by exists provider.
      * intros (_ & _ & p & [= <-] & H). rewrite Hc in H. by injection H as ->.
    + split; [intros (_ & _ & H); discriminate H|discriminate].
  - split; [|split].
    + intros e. split.
      * intros [= ->]. repeat split. by exists provider.
      * intros (_ & _ & p & [= <-] & H). rewrite Hc in H. by injection H as ->.
    + intros r. split; [discriminate|].
      intros (_ & _ & p & [= <-] & H). rewrite Hc in H. discriminate H.
    + split; [intros (_ & _ & H); discriminate H|discriminate].
Qed.

(** X27. The provider registered last under the name of the default
    provider is the one that is asked: whatever was registered before,
    also under the same name, when automatic creation is on and the score
    is not below the threshold, the outcome is that provider's answer to
    the mapped ticket, and the mapped ticket does not depend on the
    registrations. *)
Theorem X27_last_registered_provider_is_asked
        (m : Manager) (provider : Provider) (now1 now2 : time.Time) (event : SecurityEvent) :
  Name provider = DefaultProvider (cfg m) ->
  AutoCreateTicket (cfg m) = true ->
  (event_RiskScore event <? MinRiskScore (cfg m))%float = false ->
  eventToTicket (RegisterProvider m provider) now1 now2 event
  = eventToTicket m now1 now2 event
  ∧ (CreateTicketForEvent (RegisterProvider m provider) now1 now2 event).1
    = match CreateTicket provider (eventToTicket m now1 now2 event) with
      | inl result => inl (Some result)
      | inr err => inr err
      end.
Proof.
  intros Hname Hauto Hscore. split; [done|].
  unfold CreateTicketForEvent. cbn [RegisterProvider cfg providers].
  rewrite Hauto, Hscore. cbn [negb]. rewrite Hname, lookup_insert_eq.
  change (eventToTicket _ now1 now2 event) with (eventToTicket m now1 now2 event).
  by destruct (CreateTicket provider _).
Qed.

Lemma X27_witness :
  let m := RegisterProvider (NewManager policy) (desk "servicenow" (inr "desk is down")) in
  eventToTicket (RegisterProvider m (desk "servicenow" (inl opened))) sample.t1 sample.t2 alert
  = eventToTicket m sample.t1 sample.t2 alert
  ∧ (CreateTicketForEvent (RegisterProvider m (desk "servicenow" (inl opened)))
       sample.t1 sample.t2 alert).1
    = inl (Some opened).
Proof.
  exact (X27_last_registered_provider_is_asked
           (RegisterProvider (NewManager policy) (desk "servicenow" (inr "desk is down")))
           (desk "servicenow" (inl opened)) sample.t1 sample.t2 alert
           eq_refl eq_refl eq_refl).
Defined.

End MoreTicketing.

(** * More of the findings *)
Section MoreCompliance.
Import compliance scenario6 format.

Lemma components_fold cves components :
  fold_left (fun cs cve => cs ++ [ID cve]) cves components = components ++ map ID cves.
Proof.
  revert components. induction cves as [|c cves IH]; intros components; simpl.
  - by rewrite app_nil_r.
  - by rewrite IH, <- app_assoc.
Qed.

Lemma BuildCVEURLs_ID c : ID (BuildCVEURLs c) = ID c.
Proof. unfold BuildCVEURLs. by destruct (String.eqb (ID c) ""). Qed.

Lemma BuildCVEURLs_twice c : BuildCVEURLs (BuildCVEURLs c) = BuildCVEURLs c.
Proof.
  unfold BuildCVEURLs. destruct (String.eqb (ID c) "") eqn:He; rewrite ?He; [done|].
  cbn [ID]. by rewrite He.
Qed.

Lemma Join_cons e rest sep :
  rest <> [] -> Join (e :: rest) sep = e +:+ sep +:+ Join rest sep.
Proof. by destruct rest. Qed.

Lemma Join_merge pre a b rest :
  Join (pre ++ a :: b :: rest) "|" = Join (pre ++ (a +:+ "|" +:+ b) :: rest) "|".
Proof.
  induction pre as [|p pre IH].
  - cbn [app]. rewrite Join_cons by done. destruct rest as [|i rest]; [done|].
    rewrite !(Join_cons _ (i :: rest)) by done. by rewrite !append_assoc.
  - cbn [app]. rewrite !Join_cons by (by destruct pre). by rewrite IH.
Qed.

Lemma with_CVEs_same f : with_CVEs f (CVEs f) = f.
Proof. by destruct f. Qed.

(** X28. [EnrichCVEReferences] is idempotent and touches the links only.
    No field of the finding but the reference list is written: putting
    the old list back gives the finding back.  The references keep
    their number and order, and each keeps its identifier, description,
    score, vector and publication date; one with an identifier gets both
    links set to the NVD address of that identifier, one without is left
    as it was.  The deduplication key of the finding is the same before
    and after. *)
Theorem X28_enriching_references_keeps_the_key (f : Finding) :
  EnrichCVEReferences (EnrichCVEReferences f) = EnrichCVEReferences f
  ∧ with_CVEs (EnrichCVEReferences f) (CVEs f) = f
  ∧ length (CVEs (EnrichCVEReferences f)) = length (CVEs f)
  ∧ (∀ i c, CVEs f !! i = Some c ->
       ∃ c', CVEs (EnrichCVEReferences f) !! i = Some c'
         ∧ ID c' = ID c
         ∧ Description c' = Description c
         ∧ CVSS c' = CVSS c
         ∧ CVSSVector c' = CVSSVector c
         ∧ Published c' = Published c
         ∧ (if String.eqb (ID c) "" then c' = c
            else URL c' = "https://nvd.nist.gov/vuln/detail/" +:+ ID c
                 ∧ NVDUrl c' = "https://nvd.nist.gov/vuln/detail/" +:+ ID c))
  ∧ GenerateDeduplicationKey (EnrichCVEReferences f) = GenerateDeduplicationKey f.
Proof.
  assert (Hid : map ID (map BuildCVEURLs (CVEs f)) = map ID (CVEs f)).
  { rewrite map_map. apply map_ext. apply BuildCVEURLs_ID. }
  split; [|split; [|split; [|split]]].
  - unfold EnrichCVEReferences, with_CVEs. cbn. f_equal.
    rewrite map_map. apply map_ext. apply BuildCVEURLs_twice.
  - etransitivity; [|apply with_CVEs_same]. reflexivity.
  - unfold EnrichCVEReferences. cbn [with_CVEs CVEs]. apply length_map.
  - intros i c Hc. exists (BuildCVEURLs c). split.
    + unfold EnrichCVEReferences. cbn [with_CVEs CVEs].
      change (map BuildCVEURLs (CVEs f)) with (BuildCVEURLs <$> CVEs f).
      by rewrite list_lookup_fmap, Hc.
    + unfold BuildCVEURLs. by destruct (String.eqb (ID c) "").
  - unfold GenerateDeduplicationKey, EnrichCVEReferences.
    cbn [with_CVEs CVEs ResourceType ResourceID CanonicalRuleID Title].
    by rewrite !components_fold, Hid.
Qed.

(** X29. A deduplication key is always 32 lowercase hexadecimal digits,
    the first 16 bytes of the digest, whatever the finding holds. *)
Theorem X29_deduplication_key_is_32_hex_digits (f : Finding) :
  String.length (GenerateDeduplicationKey f) = 32%nat
  ∧ is_hex (GenerateDeduplicationKey f).
Proof.
  unfold GenerateDeduplicationKey. cbv zeta.
  set (data := Join _ _).
  destruct (Sum_bytes data) as [Hl Hr].
  destruct (EncodeToString_shape (firstn 16 (sha256.Sum data))) as [Hel Heh].
  { by apply Forall_take. }
  split; [|done]. rewrite Hel, length_take, Hl. done.
Qed.

(** X30. The key is a digest of the components joined with a bar, so the
    bar is not told apart from a bar inside a component: a finding whose
    first reference is [c] has the key of the finding on the same
    resource and rule whose title is the first title, a bar and the
    identifier of [c], and whose references are the remaining ones. *)
Theorem X30_bar_in_a_title_collides (f g : Finding) (c : CVEReference) :
  ResourceType f = ResourceType g ->
  ResourceID f = ResourceID g ->
  CanonicalRuleID f = CanonicalRuleID g ->
  CVEs f = c :: CVEs g ->
  Title g = Title f +:+ "|" +:+ ID c ->
  GenerateDeduplicationKey f = GenerateDeduplicationKey g.
Proof.
  intros Ht Hi Hr Hc Hg. unfold GenerateDeduplicationKey. cbv zeta.
  rewrite !components_fold, Hc, Ht, Hi, Hr, Hg. do 3 f_equal.
  exact (Join_merge [ResourceType g; ResourceID g; CanonicalRuleID g]
           (Title f) (ID c) (map ID (CVEs g))).
Qed.

Lemma X30_witness :
  GenerateDeduplicationKey (titled "OpenSSL" [reference "CVE-2024-0001"; reference "CVE-2024-0002"])
  = GenerateDeduplicationKey (titled "OpenSSL|CVE-2024-0001" [reference "CVE-2024-0002"]).
Proof.
  exact (X30_bar_in_a_title_collides
           (titled "OpenSSL" [reference "CVE-2024-0001"; reference "CVE-2024-0002"])
           (titled "OpenSSL|CVE-2024-0001" [reference "CVE-2024-0002"])
           (reference "CVE-2024-0001") eq_refl eq_refl eq_refl eq_refl eq_refl).
Defined.

End MoreCompliance.
